(** * Surfaces: scalar fields over the plane, verified against [surfaces.h]

    The header defines [Point], the type [Surface] of functions from points
    to [Real], a catalogue of primitive surfaces, the transform combinators
    and the variadic [compose] and [evaluate].  The surfaces built on
    [std::sin] and [std::cos] ([sin_wave], [cos_wave], [rotate]) take the
    two functions as parameters.

    [Real] is declared in [real.h], a header of its own; it is the
    platform's double precision type.  It is embedded as the kernel's
    binary64 numbers ([PrimFloat.float]), whose operations are specified
    by [FloatAxioms] through [Prim2SF] and the executable IEEE 754 model
    of [SpecFloat].  All definitions below compute on closed inputs.

    Two results are equal when they are the same binary64 value, so a NaN
    equals itself and the two zeros differ; a result compared with the
    constants 0 or 1 is compared with [==], which takes [-0] for [0]. *)

From Stdlib Require Import ZArith Lia Bool List.
From Stdlib Require Import Floats.

Local Open Scope float_scope.

(** ** Numbers *)

(** Modelled from the spec: [Real] of the missing [real.h], "an alias for
    the platform's standard floating-point numeric type (double
    precision)". *)
Definition Real : Set := float.

(** [INFINITY] of [<cmath>], converted to [Real]. *)
Definition INFINITY : Real := infinity.

Definition is_finite (x : Real) : bool :=
  match Prim2SF x with
  | S754_zero _ | S754_finite _ _ _ => true
  | _ => false
  end.

(** ** The functions of [<cmath>] used by the header

    [std::trunc], [std::floor] and [std::fmod] are library functions; they
    are modelled on the binary64 representation, following ISO C (F.10):
    all three are exact, so no rounding mode is involved. *)
Module Cmath.

(** [SFtrunc]: clear the fractional bits of the significand.  A number
    whose exponent is non-negative is already an integer. *)
Definition SFtrunc (x : spec_float) : spec_float :=
  match x with
  | S754_finite s m e =>
      if (0 <=? e)%Z then x
      else match (Z.pos m / 2 ^ (- e) * 2 ^ (- e))%Z with
           | Z.pos m' => S754_finite s m' e
           | _ => S754_zero s
           end
  | _ => x
  end.

Definition trunc (x : Real) : Real := SF2Prim (SFtrunc (Prim2SF x)).

(** [floor]: the integer part, one less when that is above [x]. *)
Definition floor (x : Real) : Real :=
  let t := trunc x in
  if x <? t then t - 1 else t.

(** [SFfmod x y]: [x - n * y] for the integer [n] that is [x / y] with
    its fraction cut off, computed exactly; the result has the sign of
    [x] and a magnitude below that of [y]. *)
Definition SFfmod (x y : spec_float) : spec_float :=
  match x, y with
  | S754_nan, _ => S754_nan
  | _, S754_nan => S754_nan
  | S754_infinity _, _ => S754_nan
  | _, S754_zero _ => S754_nan
  | S754_zero _, _ => x
  | S754_finite _ _ _, S754_infinity _ => x
  | S754_finite sx mx ex, S754_finite _ my ey =>
      let e := Z.min ex ey in
      let X := (Z.pos mx * 2 ^ (ex - e))%Z in
      let Y := (Z.pos my * 2 ^ (ey - e))%Z in
      binary_normalize prec emax (cond_Zopp sx (X mod Y)) e sx
  end.

Definition fmod (x y : Real) : Real :=
  SF2Prim (SFfmod (Prim2SF x) (Prim2SF y)).

End Cmath.

(** ** Points and surfaces *)

Record Point : Set := mkPoint { x : Real; y : Real }.

Definition Surface : Set := Point -> Real.

(** ** Primitive generators *)

Definition plain : Surface := fun _ => 0.

Definition slope : Surface := fun p => x p.

Definition steps (s : Real) : Surface :=
  fun p => if s <=? 0 then 0 else Cmath.floor (x p / s).

Definition stripes (s : Real) : Surface :=
  fun p =>
    if s <=? 0 then 0
    else if 0 <? x p then
      Cmath.fmod
        (if Cmath.trunc (x p / s) =? x p / s
         then Cmath.floor (x p / s)
         else Cmath.floor (x p / s) + 1)
        2
    else Cmath.fmod (Cmath.floor ((- x p) / s)) 2.

Definition checker (s : Real) : Surface :=
  fun p =>
    if s <=? 0 then 0
    else Cmath.fmod
           (stripes s (mkPoint (- x p) (- y p))
            + stripes s (mkPoint (- y p) (- x p)) + 1)
           2.

Definition sqr : Surface := fun p => x p * x p.

Definition rings (s : Real) : Surface :=
  fun p =>
    if s <=? 0 then 0
    else if (x p =? 0) && (y p =? 0) then 1
    else stripes s (mkPoint (sqrt (x p * x p + y p * y p)) 0).

Definition ellipse (a b : Real) : Surface :=
  fun p =>
    if (a <=? 0) || (b <=? 0) then 0
    else if (x p * x p) / (a * a) + (y p * y p) / (b * b) <=? 1 then 1
    else 0.

Definition rectangle (a b : Real) : Surface :=
  fun p =>
    if (a <=? 0) || (b <=? 0) then 0
    else if (- a <=? x p) && (x p <=? a) && (- b <=? y p) && (y p <=? b)
         then 1
         else 0.

(** ** Transform combinators *)

Definition translate (f : Surface) (v : Point) : Surface :=
  fun p => f (mkPoint (x p - x v) (y p - y v)).

Definition scale (f : Surface) (s : Point) : Surface :=
  fun p =>
    if (x s =? 0) || (y s =? 0) then INFINITY
    else f (mkPoint (x p / x s) (y p / y s)).

Definition invert (f : Surface) : Surface :=
  fun p => f (mkPoint (y p) (x p)).

Definition flip (f : Surface) : Surface :=
  fun p => f (mkPoint (- x p) (y p)).

Definition mul (f : Surface) (c : Real) : Surface :=
  fun p => f p * c.

Definition add (f : Surface) (c : Real) : Surface :=
  fun p => f p + c.

(** ** Generic composition

    [compose_details] has one specialisation per shape of the argument
    pack: empty, a single function, and a first function followed by a
    non-empty rest.  The pack may be heterogeneous, so it is a chain of
    functions indexed by the type it consumes and the type it produces. *)

Inductive chain : Type -> Type -> Type :=
| chain_nil : forall A, chain A A
| chain_cons : forall A B C, (A -> B) -> chain B C -> chain A C.

Arguments chain_nil {A}.
Arguments chain_cons {A B C} f fs.

(** The specialisations [compose_details<F>] (return [f]) and
    [compose_details<F_1, Fs...>] (apply [f], then the composition of the
    rest), for a pack with first element [f]. *)
Fixpoint compose_details {A B C} (f : A -> B) (fs : chain B C) : A -> C :=
  match fs in chain B' C' return (A -> B') -> A -> C' with
  | chain_nil => fun f => f
  | chain_cons g gs => fun f p => compose_details g gs (f p)
  end f.

(** [compose(fs...)]; the empty pack selects [compose_details<>]. *)
Definition compose {A C} (fs : chain A C) : A -> C :=
  match fs in chain A' C' return A' -> C' with
  | chain_nil => fun p => p
  | chain_cons f rest => compose_details f rest
  end.

(** The pack [fs..., g]. *)
Fixpoint chain_snoc {A B C} (fs : chain A B) : (B -> C) -> chain A C :=
  match fs in chain A' B' return (B' -> C) -> chain A' C with
  | chain_nil => fun g => chain_cons g chain_nil
  | chain_cons f rest => fun g => chain_cons f (chain_snoc rest g)
  end.

(** The reading of the specification, "left-to-right pipeline
    application": feed the input to the first function and the result to
    the pipeline of the others. *)
Fixpoint pipeline {A C} (fs : chain A C) : A -> C :=
  match fs in chain A' C' return A' -> C' with
  | chain_nil => fun p => p
  | chain_cons f rest => fun p => pipeline rest (f p)
  end.

(** The pack [fs..., gs...]. *)
Fixpoint chain_app {A B C} (fs : chain A B) : chain B C -> chain A C :=
  match fs in chain A' B' return chain B' C -> chain A' C with
  | chain_nil => fun gs => gs
  | chain_cons f rest => fun gs => chain_cons f (chain_app rest gs)
  end.

(** ** Evaluation of several functions at one point

    [evaluate(h, f_1, ..., f_n)] calls [h] on the values of the [f_i] at
    the point, in order; [evaluate(h)] calls [h] on no argument.  The
    positional arguments of [h] are the list of these values. *)
Definition evaluate {V R : Type} (h : list V -> R) (fs : list (Point -> V))
  : Point -> R :=
  fun p => h (map (fun f => f p) fs).

(** ** Surfaces and transforms built on [std::sin] and [std::cos]

    The two functions of [<cmath>] are not determined by binary64
    arithmetic; they are parameters here. *)

(** [std::numbers::pi], the binary64 number nearest to pi. *)
Definition pi : Real := 0x1.921fb54442d18p+1.

Section Trigonometric.

Variables sin cos : Real -> Real.

Definition sin_wave : Surface := fun p => sin (x p).

Definition cos_wave : Surface := fun p => cos (x p).

Definition rotate (f : Surface) (deg : Real) : Surface :=
  let radians := (deg / 180) * pi in
  fun p =>
    f (mkPoint (x p * cos radians + y p * sin radians)
               (y p * cos radians - x p * sin radians)).

End Trigonometric.

(** ** The specification's wording of the banding index of [stripes]

    "x/s is an exact integer": the quotient, as computed, has no
    fractional bits.  Infinities and NaN are not integers. *)
Definition SFintegral (q : spec_float) : bool :=
  match q with
  | S754_zero _ => true
  | S754_finite _ m e => (0 <=? e)%Z || (Z.pos m mod 2 ^ (- e) =? 0)%Z
  | _ => false
  end.

Definition exact_integer (q : Real) : bool := SFintegral (Prim2SF q).

(** The index for [p.x > 0]: [floor(x/s)] on a multiple boundary,
    [floor(x/s) + 1] otherwise. *)
Definition index_positive (s px : Real) : Real :=
  if exact_integer (px / s) then Cmath.floor (px / s)
  else Cmath.floor (px / s) + 1.

(** The index for [p.x <= 0]: [floor(-x/s)], with no adjustment. *)
Definition index_nonpositive (s px : Real) : Real :=
  Cmath.floor ((- px) / s).

(** ** Classes of numbers the proofs distinguish *)

(** Zero of either sign and the positive finite numbers. *)
Definition SFnonneg_finite (q : spec_float) : bool :=
  match q with
  | S754_zero _ | S754_finite false _ _ => true
  | _ => false
  end.

(** The natural numbers: zero of either sign and the positive integers. *)
Definition SFnatural (q : spec_float) : bool :=
  match q with
  | S754_zero _ => true
  | S754_finite false _ _ => SFintegral q
  | _ => false
  end.

(** * Supporting facts *)

(** ** The model of [<cmath>] on a few inputs *)

Example trunc_examples :
  Cmath.trunc 2.75 = 2 /\ Cmath.trunc (-2.75) = -2 /\
  Cmath.trunc 0.5 = 0 /\ Cmath.trunc (-0.5) = -0 /\
  Cmath.trunc 0x1p60 = 0x1p60 /\ Cmath.trunc infinity = infinity.
Proof. repeat split; vm_compute; reflexivity. Qed.

Example floor_examples :
  Cmath.floor 2.75 = 2 /\ Cmath.floor (-2.75) = -3 /\
  Cmath.floor (-0.5) = -1 /\ Cmath.floor (-4) = -4 /\
  Cmath.floor (-0) = -0 /\ Cmath.floor neg_infinity = neg_infinity.
Proof. repeat split; vm_compute; reflexivity. Qed.

Example fmod_examples :
  Cmath.fmod 7.5 2 = 1.5 /\ Cmath.fmod (-7.5) 2 = -1.5 /\
  Cmath.fmod 6 2 = 0 /\ Cmath.fmod (-6) 2 = -0 /\
  Cmath.fmod 0x1p1000 3 = 1 /\ Cmath.fmod 5.5 infinity = 5.5 /\
  (Cmath.fmod infinity 2 =? Cmath.fmod infinity 2) = false /\
  (Cmath.fmod 1 0 =? Cmath.fmod 1 0) = false.
Proof. repeat split; vm_compute; reflexivity. Qed.

(** ** Comparisons with zero *)

Lemma Prim2SF_zero : Prim2SF 0 = S754_zero false.
Proof. reflexivity. Qed.

(** A number above zero is a positive finite number or [+infinity]. *)
Lemma positive_cases (s : Real) :
  (0 <? s) = true ->
  (exists m e, Prim2SF s = S754_finite false m e) \/
  Prim2SF s = S754_infinity false.
Proof.
  rewrite ltb_spec, Prim2SF_zero. unfold SFltb, SFcompare.
  destruct (Prim2SF s) as [ [|] | [|] | | [|] m e ]; try discriminate.
  - now right.
  - left. now exists m, e.
Qed.

Lemma positive_not_le_zero (s : Real) :
  (0 <? s) = true -> (s <=? 0) = false.
Proof.
  intros H. rewrite leb_spec, Prim2SF_zero.
  destruct (positive_cases s H) as [(m & e & ->) | ->]; reflexivity.
Qed.

Lemma le_zero_not_positive (a : Real) : (a <=? 0) = true -> (0 <? a) = false.
Proof.
  rewrite leb_spec, ltb_spec, Prim2SF_zero.
  now destruct (Prim2SF a) as [sa | [|] | | [|] ma ea].
Qed.

Lemma zero_div_positive (s : Real) : (0 <? s) = true -> 0 / s = 0.
Proof.
  intros Hs. apply Prim2SF_inj. rewrite div_spec, Prim2SF_zero.
  destruct (positive_cases s Hs) as [(m & e & ->) | ->]; reflexivity.
Qed.

(** ** Negation, and subtraction of an opposite *)

Lemma SFopp_involutive (a : spec_float) : SFopp (SFopp a) = a.
Proof. destruct a as [s | s | | s m e]; simpl; now rewrite ?negb_involutive. Qed.

Lemma opp_involutive (a : Real) : - - a = a.
Proof.
  apply Prim2SF_inj. rewrite !opp_spec. apply SFopp_involutive.
Qed.

Lemma SFsub_opp (a b : spec_float) :
  SFsub prec emax a (SFopp b) = SFadd prec emax a b.
Proof.
  destruct a as [sa | sa | | sa ma ea], b as [sb | sb | | sb mb eb];
    try reflexivity;
    try (destruct sa, sb; reflexivity);
    try (simpl; now rewrite negb_involutive).
Qed.

Lemma sub_opp (a b : Real) : a - - b = a + b.
Proof.
  apply Prim2SF_inj. rewrite sub_spec, add_spec, opp_spec. apply SFsub_opp.
Qed.

(** ** Facts on the binary64 representation *)

Section Binary64.

Local Open Scope Z_scope.

(** The number of binary digits of a significand. *)
Lemma digits2_pos_log2 (m : positive) :
  Z.pos (digits2_pos m) = Z.log2 (Z.pos m) + 1.
Proof.
  assert (Hsize : forall q, digits2_pos q = Pos.size q)
    by (induction q as [q IH | q IH |]; simpl; now rewrite ?IH).
  destruct m as [q | q |]; simpl; rewrite ?Hsize; lia.
Qed.

Lemma digits2_pos_bounds (m : positive) :
  2 ^ (Z.pos (digits2_pos m) - 1) <= Z.pos m < 2 ^ Z.pos (digits2_pos m).
Proof.
  rewrite digits2_pos_log2.
  replace (Z.log2 (Z.pos m) + 1 - 1) with (Z.log2 (Z.pos m)) by lia.
  apply Z.log2_spec. lia.
Qed.

Lemma digits2_pos_unique (m : positive) (d : Z) :
  2 ^ (d - 1) <= Z.pos m < 2 ^ d -> Z.pos (digits2_pos m) = d.
Proof.
  intros H. rewrite digits2_pos_log2.
  assert (0 < d).
  { destruct (Z.lt_trichotomy d 0) as [Hd | [Hd | Hd]]; trivial.
    - rewrite (Z.pow_neg_r 2 d) in H by lia. lia.
    - subst d. simpl in H. lia. }
  rewrite (Z.log2_unique (Z.pos m) (d - 1)); try lia.
  now replace (Z.succ (d - 1)) with d by lia.
Qed.

(** Validity of a finite number, spelled out. *)
Lemma valid_finite (s : bool) (m : positive) (e : Z) :
  valid_binary (S754_finite s m e) = true <->
  Z.max (Z.pos (digits2_pos m) + e - 53) (-1074) = e /\ e <= 971.
Proof.
  unfold SpecFloat.valid_binary, bounded, canonical_mantissa, fexp,
    SpecFloat.emin.
  change prec with 53. change emax with 1024.
  rewrite andb_true_iff, Z.eqb_eq, Z.leb_le. simpl (3 - 1024 - 53).
  simpl (1024 - 53). reflexivity.
Qed.

Lemma Prim2SF_finite_valid (a : Real) (s : bool) (m : positive) (e : Z) :
  Prim2SF a = S754_finite s m e ->
  Z.max (Z.pos (digits2_pos m) + e - 53) (-1074) = e /\ e <= 971.
Proof.
  intros H. apply (valid_finite s). rewrite <- H. apply Prim2SF_valid.
Qed.

(** *** Truncation *)

(** Clearing the fractional bits keeps the number of digits. *)
Lemma cleared_digits (m m' : positive) (k : Z) :
  0 <= k ->
  Z.pos m / 2 ^ k * 2 ^ k = Z.pos m' ->
  digits2_pos m' = digits2_pos m.
Proof.
  intros Hk Hm'.
  assert (Hpow : 0 < 2 ^ k) by (apply Z.pow_pos_nonneg; lia).
  pose proof (digits2_pos_bounds m) as [Hlo Hhi].
  set (d := Z.pos (digits2_pos m)) in *.
  assert (Hle : Z.pos m' <= Z.pos m).
  { rewrite <- Hm'. rewrite Z.mul_comm. apply Z.mul_div_le. lia. }
  assert (Hq : 0 < Z.pos m / 2 ^ k) by nia.
  assert (Hkd : k <= d - 1).
  { destruct (Z.le_gt_cases k (d - 1)) as [|Hgt]; trivial.
    assert (2 ^ d <= 2 ^ k) by (apply Z.pow_le_mono_r; lia).
    rewrite Z.div_small in Hq; lia. }
  assert (Hge : 2 ^ (d - 1) <= Z.pos m').
  { rewrite <- Hm'.
    replace (d - 1) with (d - 1 - k + k) by lia.
    rewrite Z.pow_add_r by lia.
    apply Z.mul_le_mono_nonneg_r; [lia|].
    apply Z.div_le_lower_bound; [lia|].
    rewrite Z.mul_comm, <- Z.pow_add_r by lia.
    now replace (d - 1 - k + k) with (d - 1) by lia. }
  assert (Hd : Z.pos (digits2_pos m') = d)
    by (apply digits2_pos_unique; lia).
  unfold d in Hd. now injection Hd.
Qed.

Lemma SFtrunc_valid (a : spec_float) :
  valid_binary a = true -> valid_binary (Cmath.SFtrunc a) = true.
Proof.
  destruct a as [s | s | | s m e]; trivial.
  intros Hv. unfold Cmath.SFtrunc.
  destruct (0 <=? e) eqn:He; trivial.
  apply Z.leb_gt in He.
  destruct (Z.pos m / 2 ^ (- e) * 2 ^ (- e)) as [| m' |] eqn:Hm'; trivial.
  apply valid_finite. apply valid_finite in Hv.
  now rewrite (cleared_digits m m' (- e)) by (lia || assumption).
Qed.

Lemma Prim2SF_trunc (a : Real) :
  Prim2SF (Cmath.trunc a) = Cmath.SFtrunc (Prim2SF a).
Proof.
  unfold Cmath.trunc. apply Prim2SF_SF2Prim, SFtrunc_valid, Prim2SF_valid.
Qed.


Lemma SFeqb_finite (s : bool) (m m' : positive) (e : Z) :
  SFeqb (S754_finite s m' e) (S754_finite s m e) = (m' =? m)%positive.
Proof.
  unfold SFeqb, SFcompare. rewrite Z.compare_refl, Pos.compare_cont_spec.
  rewrite Pos.eqb_compare.
  destruct s; simpl; destruct (m' ?= m)%positive; reflexivity.
Qed.

Lemma cleared_eq_iff (m : positive) (k : Z) :
  0 <= k ->
  Z.pos m / 2 ^ k * 2 ^ k = Z.pos m <-> Z.pos m mod 2 ^ k = 0.
Proof.
  intros Hk.
  assert (Hpow : 0 < 2 ^ k) by (apply Z.pow_pos_nonneg; lia).
  pose proof (Z.div_mod (Z.pos m) (2 ^ k)). lia.
Qed.

(** [trunc(q) == q] holds for the integers and for the infinities. *)
Lemma trunc_eqb (q : Real) :
  (Cmath.trunc q =? q)%float =
  match Prim2SF q with
  | S754_nan => false
  | S754_infinity _ => true
  | _ => exact_integer q
  end.
Proof.
  rewrite eqb_spec, Prim2SF_trunc. unfold exact_integer.
  destruct (Prim2SF q) as [s | s | | s m e]; try (destruct s; reflexivity).
  - reflexivity.
  - unfold Cmath.SFtrunc, SFintegral.
    destruct (0 <=? e) eqn:He.
    + rewrite SFeqb_finite. apply Pos.eqb_refl.
    + apply Z.leb_gt in He. simpl.
      assert (Hpow : 0 < 2 ^ (- e)) by (apply Z.pow_pos_nonneg; lia).
      pose proof (cleared_eq_iff m (- e)) as Hiff.
      pose proof (Z.div_pos (Z.pos m) (2 ^ (- e))).
      destruct (Z.pos m / 2 ^ (- e) * 2 ^ (- e)) as [| m' |] eqn:Hm'.
      * destruct (Z.eqb_spec (Z.pos m mod 2 ^ (- e)) 0) as [H0 | H0];
          [apply Hiff in H0; lia | destruct s; reflexivity].
      * rewrite SFeqb_finite.
        destruct (Z.eqb_spec (Z.pos m mod 2 ^ (- e)) 0) as [H0 | H0].
        -- apply Hiff in H0; [|lia]. injection H0 as ->. apply Pos.eqb_refl.
        -- apply Pos.eqb_neq. intros ->. apply H0, Hiff; lia.
      * nia.
Qed.

(** The integer part of a number is an integer. *)
Lemma SFtrunc_integral (a : spec_float) :
  match a with S754_zero _ | S754_finite _ _ _ => True | _ => False end ->
  SFintegral (Cmath.SFtrunc a) = true.
Proof.
  destruct a as [s | s | | s m e]; try contradiction; trivial.
  intros _. unfold Cmath.SFtrunc.
  destruct (0 <=? e) eqn:He; [simpl; now rewrite He|].
  apply Z.leb_gt in He.
  assert (Hpow : 0 < 2 ^ (- e)) by (apply Z.pow_pos_nonneg; lia).
  destruct (Z.pos m / 2 ^ (- e) * 2 ^ (- e)) as [| m' |] eqn:Hm'; trivial.
  simpl. rewrite <- Hm', Z.mod_mul by lia. apply orb_true_r.
Qed.

(** Below a number that is not negative, [floor] is [trunc]. *)
Lemma floor_trunc (q : Real) :
  match Prim2SF q with S754_finite true _ _ => False | _ => True end ->
  Cmath.floor q = Cmath.trunc q.
Proof.
  intros Hq. unfold Cmath.floor.
  replace (q <? Cmath.trunc q)%float with false; trivial.
  symmetry. rewrite ltb_spec, Prim2SF_trunc.
  destruct (Prim2SF q) as [s | s | | s m e]; try (destruct s; reflexivity).
  - reflexivity.
  - destruct s; [contradiction|]. unfold Cmath.SFtrunc.
    assert (Hrefl : SFltb (S754_finite false m e) (S754_finite false m e) = false).
    { unfold SFltb, SFcompare.
      now rewrite Z.compare_refl, Pos.compare_cont_refl. }
    destruct (0 <=? e) eqn:He; trivial.
    apply Z.leb_gt in He.
    assert (Hpow : 0 < 2 ^ (- e)) by (apply Z.pow_pos_nonneg; lia).
    pose proof (Z.mul_div_le (Z.pos m) (2 ^ (- e)) Hpow) as Hle.
    destruct (Z.pos m / 2 ^ (- e) * 2 ^ (- e)) as [| m' |] eqn:Hm'; trivial.
    unfold SFltb, SFcompare.
    rewrite Z.compare_refl, Pos.compare_cont_spec. simpl.
    destruct (Pos.compare_spec m m') as [Heq | Hlt | Hgt]; trivial. lia.
Qed.


(** *** Rounding an exactly representable value *)

Lemma shr_1_double (m : Z) :
  shr_1 {| shr_m := m * 2; shr_r := false; shr_s := false |}
  = {| shr_m := m; shr_r := false; shr_s := false |}.
Proof. rewrite Z.mul_comm. destruct m as [| q | q]; reflexivity. Qed.

Lemma iter_shr_exact (p : positive) (m : Z) :
  iter_pos shr_1 p
    {| shr_m := m * 2 ^ Z.pos p; shr_r := false; shr_s := false |}
  = {| shr_m := m; shr_r := false; shr_s := false |}.
Proof.
  revert m. induction p as [p IH | p IH |]; intros m; cbn [iter_pos].
  - replace (m * 2 ^ Z.pos p~1) with (m * 2 ^ Z.pos p * 2 ^ Z.pos p * 2).
    + now rewrite shr_1_double, !IH.
    + rewrite (Pos2Z.inj_xI p), Z.pow_add_r, Z.pow_mul_r by lia.
      change (2 ^ 2) with (2 * 2). change (2 ^ 1) with 2.
      rewrite Z.pow_mul_l. lia.
  - replace (m * 2 ^ Z.pos p~0) with (m * 2 ^ Z.pos p * 2 ^ Z.pos p).
    + now rewrite !IH.
    + rewrite (Pos2Z.inj_xO p), Z.pow_mul_r by lia.
      change (2 ^ 2) with (2 * 2). rewrite Z.pow_mul_l. lia.
  - change (2 ^ 1) with 2. apply shr_1_double.
Qed.

(** A significand [M] at exponent [e] whose low bits, below the
    exponent [fe] the format assigns to it, are all zero is rounded to
    itself: no bit is lost. *)
Lemma binary_round_exact (s : bool) (M m1 : positive) (e fe : Z) :
  fe = Z.max (Z.pos (digits2_pos M) + e - 53) (-1074) ->
  e <= fe <= 971 ->
  Z.pos M = Z.pos m1 * 2 ^ (fe - e) ->
  binary_round prec emax s M e = S754_finite s m1 fe.
Proof.
  intros Hfe [Hlo Hhi] HM.
  assert (Hfexp : forall d, fexp prec emax d = Z.max (d - 53) (-1074))
    by reflexivity.
  assert (Hdig : Z.pos (digits2_pos M) = fe - e + Z.pos (digits2_pos m1)).
  { rewrite !digits2_pos_log2, HM, Z.log2_mul_pow2 by lia. lia. }
  unfold binary_round. rewrite Hfexp, <- Hfe.
  replace (shl_align M e fe) with (M, e)
    by (unfold shl_align; destruct (fe - e) eqn:Hk; trivial; lia).
  unfold binary_round_aux, shr_fexp.
  cbn [Zdigits2 shr_record_of_loc]. rewrite Hfexp, <- Hfe.
  assert (Hshr : shr {| shr_m := Z.pos M; shr_r := false; shr_s := false |}
                     e (fe - e)
                 = ({| shr_m := Z.pos m1; shr_r := false; shr_s := false |},
                    fe)).
  { unfold shr. destruct (fe - e) as [| k | k] eqn:Hk.
    - rewrite HM. f_equal; [f_equal|]; lia.
    - rewrite HM, iter_shr_exact. f_equal. lia.
    - lia. }
  rewrite Hshr. cbn [shr_m loc_of_shr_record round_nearest_even Zdigits2].
  rewrite Hfexp.
  replace (Z.max (Z.pos (digits2_pos m1) + fe - 53) (-1074) - fe) with 0
    by lia.
  cbn [shr shr_m].
  replace (fe <=? emax - prec) with true; trivial.
  symmetry. apply Z.leb_le. change (emax - prec) with 971. lia.
Qed.


(** *** Natural numbers among the binary64 numbers *)

Lemma Prim2SF_one : Prim2SF 1 = S754_finite false 4503599627370496 (-52).
Proof. reflexivity. Qed.

Lemma Prim2SF_two : Prim2SF 2 = S754_finite false 4503599627370496 (-51).
Proof. reflexivity. Qed.

(** An integer with a negative exponent: its value [n], and the shape
    validity forces on it. *)
Lemma integral_negative_exponent (s : bool) (m : positive) (e : Z) :
  valid_binary (S754_finite s m e) = true ->
  SFintegral (S754_finite s m e) = true ->
  e < 0 ->
  exists n, Z.pos m = n * 2 ^ (- e) /\ 1 <= n /\ n < 2 ^ (53 + e)
            /\ -52 <= e.
Proof.
  intros Hv Hi He. apply valid_finite in Hv. destruct Hv as [Hcan Hmax].
  simpl in Hi. replace (0 <=? e) with false in Hi
    by (symmetry; apply Z.leb_gt; lia).
  simpl in Hi. apply Z.eqb_eq in Hi.
  assert (Hpow : 0 < 2 ^ (- e)) by (apply Z.pow_pos_nonneg; lia).
  pose proof (digits2_pos_bounds m) as [Hlo Hhi].
  set (d := Z.pos (digits2_pos m)) in *.
  assert (Hd : d <= 53) by lia.
  assert (Hm53 : Z.pos m < 2 ^ 53).
  { apply Z.lt_le_trans with (1 := Hhi). apply Z.pow_le_mono_r; lia. }
  exists (Z.pos m / 2 ^ (- e)).
  assert (Hm : Z.pos m = Z.pos m / 2 ^ (- e) * 2 ^ (- e))
    by (pose proof (Z.div_mod (Z.pos m) (2 ^ (- e))); lia).
  assert (Hn : 1 <= Z.pos m / 2 ^ (- e)).
  { pose proof (Z.div_pos (Z.pos m) (2 ^ (- e))). nia. }
  assert (He52 : - e < 53).
  { apply (Z.pow_lt_mono_r_iff 2); [lia | lia |].
    apply Z.le_lt_trans with (2 := Hm53). nia. }
  repeat split; trivial; try lia.
  apply Z.div_lt_upper_bound; [lia|].
  rewrite <- Z.pow_add_r by lia. now replace (- e + (53 + e)) with 53 by lia.
Qed.

Lemma Pos_iter_xO (m d : positive) :
  Z.pos (Pos.iter xO m d) = Z.pos m * 2 ^ Z.pos d.
Proof.
  induction d as [| d IH] using Pos.peano_ind.
  - simpl. lia.
  - rewrite Pos.iter_succ, Pos2Z.inj_xO, IH, Pos2Z.inj_succ, Z.pow_succ_r
      by lia. lia.
Qed.

Lemma shl_align_fst (m : positive) (e e' : Z) :
  e' <= e -> Z.pos (fst (shl_align m e e')) = Z.pos m * 2 ^ (e - e').
Proof.
  intros Hle. unfold shl_align.
  destruct (e' - e) as [| d | d] eqn:Hd; simpl fst.
  - replace (e - e') with 0 by lia. simpl. lia.
  - lia.
  - rewrite Pos_iter_xO. f_equal. f_equal. lia.
Qed.

(** Adding one to a natural number below [2 ^ 52] gives a natural
    number. *)
Lemma SFadd_one_natural (m : positive) (e : Z) :
  valid_binary (S754_finite false m e) = true ->
  SFintegral (S754_finite false m e) = true ->
  e < 0 ->
  SFnatural (SFadd prec emax (S754_finite false m e) (Prim2SF 1)) = true.
Proof.
  intros Hv Hi He.
  destruct (integral_negative_exponent false m e Hv Hi He)
    as (n & Hm & Hn1 & Hn & He52).
  rewrite Prim2SF_one. unfold SFadd.
  replace (Z.min e (-52)) with (-52) by lia.
  rewrite !shl_align_fst by lia. cbn [cond_Zopp].
  replace (-52 - -52) with 0 by lia.
  assert (Hn52 : n + 1 <= 2 ^ 52).
  { assert (2 ^ (53 + e) <= 2 ^ 52) by (apply Z.pow_le_mono_r; lia). lia. }
  assert (HS : Z.pos m * 2 ^ (e - -52) + 4503599627370496 * 2 ^ 0
               = (n + 1) * 2 ^ 52).
  { rewrite Hm, <- Z.mul_assoc, <- Z.pow_add_r by lia.
    replace (- e + (e - -52)) with 52 by lia.
    change (2 ^ 0) with 1. change (2 ^ 52) with 4503599627370496. lia. }
  rewrite HS.
  destruct ((n + 1) * 2 ^ 52) as [| S | S] eqn:HS'; try lia.
  cbn [binary_normalize].
  pose proof (digits2_pos_bounds S) as [Hlo Hhi].
  set (D := Z.pos (digits2_pos S)) in *.
  assert (HD1 : 53 < D).
  { apply (Z.pow_lt_mono_r_iff 2); [lia | lia |].
    apply Z.le_lt_trans with (2 := Hhi). rewrite <- HS'.
    change (2 ^ 53) with (2 * 2 ^ 52). nia. }
  assert (HD2 : D - 1 <= 104).
  { apply (Z.pow_le_mono_r_iff 2); [lia | lia |].
    apply Z.le_trans with (1 := Hlo). rewrite <- HS'.
    change (2 ^ 104) with (2 ^ 52 * 2 ^ 52). nia. }
  set (fe := D - 105).
  assert (Hpfe : 0 < 2 ^ (- fe)) by (apply Z.pow_pos_nonneg; lia).
  destruct ((n + 1) * 2 ^ (- fe)) as [| m1 | m1] eqn:Hm1; try nia.
  rewrite (binary_round_exact false S m1 (-52) fe).
  - simpl. rewrite <- Hm1, Z.mod_mul by lia. apply orb_true_r.
  - fold D. unfold fe. lia.
  - unfold fe. lia.
  - rewrite <- HS', <- Hm1, <- Z.mul_assoc, <- Z.pow_add_r by lia.
    f_equal. f_equal. lia.
Qed.

(** The remainder modulo 2 of a natural number is 0 or 1. *)
Lemma SFfmod_two_natural (m : positive) (e : Z) :
  valid_binary (S754_finite false m e) = true ->
  SFintegral (S754_finite false m e) = true ->
  Cmath.SFfmod (S754_finite false m e) (Prim2SF 2) = S754_zero false \/
  Cmath.SFfmod (S754_finite false m e) (Prim2SF 2) = Prim2SF 1.
Proof.
  intros Hv Hi. rewrite Prim2SF_two, Prim2SF_one. unfold Cmath.SFfmod.
  pose proof Hv as Hv'. apply valid_finite in Hv'. destruct Hv' as [Hcan _].
  set (c := Z.min e (-51)).
  assert (Hc : -1074 <= c <= -51) by lia.
  assert (Hpc : 0 < 2 ^ (- c)) by (apply Z.pow_pos_nonneg; lia).
  assert (HV : exists V, Z.pos m * 2 ^ (e - c) = V * 2 ^ (- c)).
  { destruct (Z.lt_ge_cases e 0) as [He | He].
    - destruct (integral_negative_exponent false m e Hv Hi He)
        as (n & Hm & _).
      exists n. rewrite Hm, <- Z.mul_assoc, <- Z.pow_add_r by lia.
      f_equal. f_equal. lia.
    - exists (Z.pos m * 2 ^ e).
      rewrite <- Z.mul_assoc, <- Z.pow_add_r by lia.
      reflexivity. }
  destruct HV as [V HV]. rewrite HV.
  replace (4503599627370496 * 2 ^ (-51 - c)) with (2 * 2 ^ (- c)).
  2:{ change 4503599627370496 with (2 ^ 52).
      rewrite <- Z.pow_add_r, <- Z.pow_succ_r by lia. f_equal. lia. }
  rewrite Z.mul_mod_distr_r by lia. cbn [cond_Zopp].
  assert (HV2 : V mod 2 = 0 \/ V mod 2 = 1)
    by (pose proof (Z.mod_pos_bound V 2); lia).
  destruct HV2 as [-> | ->]; [left; reflexivity | right].
  rewrite Z.mul_1_l.
  destruct (Z.eq_dec c (-51)) as [-> | Hc51]; [reflexivity|].
  destruct (2 ^ (- c)) as [| M | M] eqn:HM; try lia.
  cbn [binary_normalize].
  apply binary_round_exact.
  - rewrite (digits2_pos_unique M (- c + 1)); [lia|].
    rewrite <- HM. replace (- c + 1 - 1) with (- c) by lia.
    rewrite Z.pow_add_r by lia. lia.
  - lia.
  - rewrite <- HM. change 4503599627370496 with (2 ^ 52).
    rewrite <- Z.pow_add_r by lia. f_equal. lia.
Qed.


(** *** Signs of quotients *)

Lemma binary_round_aux_opp (s : bool) (m e : Z) (l : location) :
  binary_round_aux prec emax (negb s) m e l
  = SFopp (binary_round_aux prec emax s m e l).
Proof.
  unfold binary_round_aux.
  destruct (shr_fexp prec emax m e l) as [mrs' e'].
  destruct (shr_fexp prec emax _ e' loc_Exact) as [mrs'' e''].
  destruct (shr_m mrs''); trivial.
  now destruct (e'' <=? emax - prec).
Qed.

Lemma binary_round_aux_nonneg (m e : Z) (l : location) :
  match binary_round_aux prec emax false m e l with
  | S754_zero s | S754_infinity s | S754_finite s _ _ => s = false
  | S754_nan => True
  end.
Proof.
  unfold binary_round_aux.
  destruct (shr_fexp prec emax m e l) as [mrs' e'].
  destruct (shr_fexp prec emax _ e' loc_Exact) as [mrs'' e''].
  destruct (shr_m mrs''); trivial.
  now destruct (e'' <=? emax - prec).
Qed.

Lemma SFdiv_opp (a b : spec_float) :
  SFdiv prec emax (SFopp a) b = SFopp (SFdiv prec emax a b).
Proof.
  destruct a as [sa | sa | | sa ma ea], b as [sb | sb | | sb mb eb];
    try reflexivity; try (destruct sa, sb; reflexivity).
  unfold SFdiv, SFopp at 1.
  destruct (SFdiv_core_binary prec emax (Z.pos ma) ea (Z.pos mb) eb)
    as [[mz ez] lz].
  rewrite <- binary_round_aux_opp. now destruct sa, sb.
Qed.

End Binary64.

(** ** Facts on [Real] *)

Lemma div_opp (a s : Real) : - a / s = - (a / s).
Proof.
  apply Prim2SF_inj. rewrite opp_spec, !div_spec, opp_spec. apply SFdiv_opp.
Qed.

Lemma is_finite_opp (a : Real) : is_finite (- a) = is_finite a.
Proof. unfold is_finite. rewrite opp_spec. now destruct (Prim2SF a). Qed.

(** A finite quotient by a number above zero has a finite dividend. *)
Lemma finite_quotient_dividend (a s : Real) :
  (0 <? s) = true -> is_finite (a / s) = true -> is_finite a = true.
Proof.
  intros Hs. unfold is_finite. rewrite div_spec.
  destruct (positive_cases s Hs) as [(m & e & ->) | ->];
    now destruct (Prim2SF a).
Qed.

Lemma quotient_nonneg_finite (a s : Real) :
  SFnonneg_finite (Prim2SF a) = true ->
  (0 <? s) = true ->
  is_finite (a / s) = true ->
  SFnonneg_finite (Prim2SF (a / s)) = true.
Proof.
  intros Ha Hs. unfold is_finite. rewrite div_spec.
  destruct (positive_cases s Hs) as [(m & e & ->) | ->];
    destruct (Prim2SF a) as [sa | sa | | [|] ma ea]; try discriminate;
    trivial.
  unfold SF64div, SFdiv.
  destruct (SFdiv_core_binary prec emax (Z.pos ma) ea (Z.pos m) e)
    as [[mz ez] lz].
  pose proof (binary_round_aux_nonneg mz ez lz) as Hsign. cbn [xorb].
  destruct (binary_round_aux prec emax false mz ez lz) as [sq | sq | | sq mq eq];
    try discriminate; trivial.
  now rewrite Hsign.
Qed.

(** What is not above zero, among the finite numbers. *)
Lemma not_positive_opp_nonneg (a : Real) :
  is_finite a = true -> (0 <? a) = false ->
  SFnonneg_finite (Prim2SF (- a)) = true.
Proof.
  unfold is_finite. rewrite ltb_spec, opp_spec, Prim2SF_zero.
  now destruct (Prim2SF a) as [sa | sa | | [|] ma ea].
Qed.

Lemma positive_nonneg (a : Real) :
  is_finite a = true -> (0 <? a) = true ->
  SFnonneg_finite (Prim2SF a) = true.
Proof.
  unfold is_finite. rewrite ltb_spec, Prim2SF_zero.
  now destruct (Prim2SF a) as [sa | sa | | [|] ma ea].
Qed.

(** *** Integer parts and remainders *)

Lemma floor_trunc_nonneg (q : Real) :
  SFnonneg_finite (Prim2SF q) = true -> Cmath.floor q = Cmath.trunc q.
Proof.
  intros Hq. apply floor_trunc.
  now destruct (Prim2SF q) as [sq | sq | | [|] mq eq].
Qed.

Lemma trunc_natural (q : Real) :
  SFnonneg_finite (Prim2SF q) = true ->
  SFnatural (Prim2SF (Cmath.trunc q)) = true.
Proof.
  intros Hq. rewrite Prim2SF_trunc.
  destruct (Prim2SF q) as [sq | sq | | [|] mq eq] eqn:E; try discriminate;
    trivial.
  pose proof (SFtrunc_integral (S754_finite false mq eq) I) as Hi.
  unfold Cmath.SFtrunc in *.
  destruct (0 <=? eq)%Z; trivial.
  now destruct (Z.pos mq / 2 ^ (- eq) * 2 ^ (- eq))%Z.
Qed.

Lemma trunc_add_one_natural (q : Real) :
  SFnonneg_finite (Prim2SF q) = true ->
  (Cmath.trunc q =? q) = false ->
  SFnatural (Prim2SF (Cmath.trunc q + 1)) = true.
Proof.
  intros Hq Hne. rewrite trunc_eqb in Hne. unfold exact_integer in Hne.
  rewrite add_spec, Prim2SF_trunc.
  pose proof (Prim2SF_valid q) as Hv.
  destruct (Prim2SF q) as [sq | sq | | [|] mq eq] eqn:E; try discriminate.
  pose proof (SFtrunc_valid _ Hv) as Hv'.
  pose proof (SFtrunc_integral (S754_finite false mq eq) I) as Hi.
  unfold Cmath.SFtrunc in *. cbn [SFintegral] in Hne.
  destruct (0 <=? eq)%Z eqn:He; [discriminate|].
  apply Z.leb_gt in He.
  destruct (Z.pos mq / 2 ^ (- eq) * 2 ^ (- eq))%Z as [| m' | m'];
    try reflexivity.
  now apply SFadd_one_natural.
Qed.

(** [fmod(a, 2)] of a natural number [a] is [0], [-0] or [1]. *)
Lemma fmod_two_natural (a : Real) :
  SFnatural (Prim2SF a) = true ->
  Cmath.fmod a 2 = 0 \/ Cmath.fmod a 2 = -0 \/ Cmath.fmod a 2 = 1.
Proof.
  intros Ha. unfold Cmath.fmod.
  pose proof (Prim2SF_valid a) as Hv.
  destruct (Prim2SF a) as [[|] | sa | | [|] ma ea]; try discriminate.
  - right; left. reflexivity.
  - left. reflexivity.
  - destruct (SFfmod_two_natural ma ea Hv Ha) as [-> | ->].
    + left. reflexivity.
    + right; right. apply SF2Prim_Prim2SF.
Qed.

(** At an infinite quotient both readings of the index agree: the floor
    is the quotient itself, and adding one does not change it. *)
Lemma floor_infinity (q : Real) (sq : bool) :
  Prim2SF q = S754_infinity sq ->
  Cmath.floor q = q /\ Cmath.floor q + 1 = q.
Proof.
  intros Hq.
  assert (Hfl : Cmath.floor q = q).
  { rewrite floor_trunc by now rewrite Hq.
    apply Prim2SF_inj. now rewrite Prim2SF_trunc, Hq. }
  split; trivial. rewrite Hfl. apply Prim2SF_inj.
  rewrite add_spec, Hq. reflexivity.
Qed.

(** *** The values [stripes] takes *)

Lemma stripes_range_at (s px py : Real) :
  (0 <? s) = true ->
  is_finite (px / s) = true ->
  stripes s (mkPoint px py) = 0 \/ stripes s (mkPoint px py) = -0 \/
  stripes s (mkPoint px py) = 1.
Proof.
  intros Hs Hq.
  pose proof (finite_quotient_dividend px s Hs Hq) as Hpx.
  unfold stripes. rewrite (positive_not_le_zero s Hs). cbn [x].
  destruct (0 <? px) eqn:Hpos.
  - pose proof (quotient_nonneg_finite px s (positive_nonneg px Hpx Hpos) Hs Hq)
      as Hnn.
    rewrite (floor_trunc_nonneg _ Hnn).
    apply fmod_two_natural.
    destruct (Cmath.trunc (px / s) =? px / s) eqn:Heq.
    + now apply trunc_natural.
    + now apply trunc_add_one_natural.
  - assert (Hq' : is_finite (- px / s) = true)
      by now rewrite div_opp, is_finite_opp.
    pose proof (quotient_nonneg_finite (- px) s
                  (not_positive_opp_nonneg px Hpx Hpos) Hs Hq') as Hnn.
    rewrite (floor_trunc_nonneg _ Hnn).
    apply fmod_two_natural. now apply trunc_natural.
Qed.

(** * The properties of the specification *)

(** ** Concrete evaluations of [stripes] *)

Lemma stripes_scenario_differs :
  (stripes 1 (mkPoint 0.5 0) =? 0) = false /\
  (stripes 1 (mkPoint 1.5 0) =? 1) = false.
Proof. split; vm_compute; reflexivity. Qed.

(** C1, as the code has it: [stripes(1)] is [1.0] at [Point(0.5, 0)] and
    [0.0] at [Point(1.5, 0)]; the first band to the right of the origin
    carries the index 1. *)
Theorem stripes_scenario :
  stripes 1 (mkPoint 0.5 0) = 1 /\ stripes 1 (mkPoint 1.5 0) = 0.
Proof. split; vm_compute; reflexivity. Qed.

(** ** The tie-break rule of [stripes] *)

(** C3: for [s > 0], when [p.x > 0] the banding index is [floor(p.x/s)]
    if [p.x/s] is an exact integer and [floor(p.x/s) + 1] otherwise; when
    [p.x <= 0] it is [floor(-p.x/s)] with no adjustment; the value
    returned is the index modulo 2. *)
Theorem stripes_tie_break (s : Real) (p : Point) :
  (0 <? s) = true ->
  ((0 <? x p) = true ->
   stripes s p = Cmath.fmod (index_positive s (x p)) 2)
  /\
  ((x p <=? 0) = true ->
   stripes s p = Cmath.fmod (index_nonpositive s (x p)) 2).
Proof.
  intros Hs. unfold stripes. rewrite (positive_not_le_zero s Hs). split.
  - intros Hx. rewrite Hx. unfold index_positive.
    rewrite trunc_eqb.
    destruct (Prim2SF (x p / s)) as [sq | sq | | sq mq eq] eqn:Hq;
      trivial; unfold exact_integer; rewrite Hq; cbn [SFintegral]; trivial.
    destruct (floor_infinity _ sq Hq) as [-> ->]. reflexivity.
  - intros Hx. now rewrite (le_zero_not_positive _ Hx).
Qed.

Lemma stripes_tie_break_witness :
  (0 <? 2) = true /\
  stripes 2 (mkPoint 3 0) = Cmath.fmod (index_positive 2 3) 2 /\
  stripes 2 (mkPoint (-3) 0) = Cmath.fmod (index_nonpositive 2 (-3)) 2.
Proof.
  split; [reflexivity|]. split.
  - apply (stripes_tie_break 2 (mkPoint 3 0)); reflexivity.
  - apply (stripes_tie_break 2 (mkPoint (-3) 0)); reflexivity.
Defined.

(** ** Degenerate parameters *)

(** C4: for every [s <= 0], [steps], [stripes], [checker] and [rings] of
    period [s] are 0 at every point; and when [a <= 0] or [b <= 0],
    [ellipse(a,b)] and [rectangle(a,b)] are 0 at every point. *)
Theorem degenerate_parameters_give_zero (s a b : Real) (p : Point) :
  ((s <=? 0) = true ->
   steps s p = 0 /\ stripes s p = 0 /\ checker s p = 0 /\ rings s p = 0)
  /\
  ((a <=? 0) = true \/ (b <=? 0) = true ->
   ellipse a b p = 0 /\ rectangle a b p = 0).
Proof.
  split.
  - intros Hs. unfold steps, stripes, checker, rings. now rewrite Hs.
  - intros Hab.
    assert (Hor : (a <=? 0) || (b <=? 0) = true)
      by (apply orb_true_iff; exact Hab).
    unfold ellipse, rectangle. now rewrite Hor.
Qed.

Lemma degenerate_parameters_give_zero_witness :
  (steps (-1) (mkPoint 3 4) = 0 /\ stripes (-1) (mkPoint 3 4) = 0 /\
   checker (-1) (mkPoint 3 4) = 0 /\ rings (-1) (mkPoint 3 4) = 0)
  /\ (ellipse 0 2 (mkPoint 3 4) = 0 /\ rectangle 0 2 (mkPoint 3 4) = 0).
Proof.
  destruct (degenerate_parameters_give_zero (-1) 0 2 (mkPoint 3 4))
    as [Hs Hab].
  split.
  - apply Hs. reflexivity.
  - apply Hab. left. reflexivity.
Defined.

(** ** The checkerboard *)

Lemma checker_sum_mod_2_differs :
  (0 <? 1) = true /\
  (checker 1 (mkPoint 0 0)
   =? Cmath.fmod (stripes 1 (mkPoint (- 0) (- 0))
                  + stripes 1 (mkPoint (- 0) (- 0))) 2) = false.
Proof. split; vm_compute; reflexivity. Qed.

(** C2, as the code has it: for [s > 0], [checker(s)(p)] is the sum of
    [stripes(s)] at [(-p.x, -p.y)] and at [(-p.y, -p.x)], plus one,
    reduced modulo 2. *)
Theorem checker_sum_plus_one (s : Real) (p : Point) :
  (0 <? s) = true ->
  checker s p =
  Cmath.fmod (stripes s (mkPoint (- x p) (- y p))
              + stripes s (mkPoint (- y p) (- x p)) + 1) 2.
Proof.
  intros Hs. unfold checker. now rewrite (positive_not_le_zero s Hs).
Qed.

Lemma checker_sum_plus_one_witness :
  (0 <? 1) = true /\
  checker 1 (mkPoint 0.5 2) =
  Cmath.fmod (stripes 1 (mkPoint (- 0.5) (- 2))
              + stripes 1 (mkPoint (- 2) (- 0.5)) + 1) 2.
Proof.
  split; [reflexivity|].
  apply (checker_sum_plus_one 1 (mkPoint 0.5 2)). reflexivity.
Defined.

(** C9: for every [s > 0], [checker(s)(Point(0, 0))] is 1: both
    [stripes] terms vanish at the origin and the sum is incremented
    before the reduction modulo 2. *)
Theorem checker_origin (s : Real) :
  (0 <? s) = true -> checker s (mkPoint 0 0) = 1.
Proof.
  intros Hs.
  assert (Hstripe : stripes s (mkPoint (- 0) (- 0)) = 0).
  { unfold stripes. rewrite (positive_not_le_zero s Hs). cbn [x y].
    change (0 <? - 0) with false. cbv iota.
    change (- - 0) with 0. rewrite (zero_div_positive s Hs).
    reflexivity. }
  unfold checker. rewrite (positive_not_le_zero s Hs). cbn [x y].
  rewrite Hstripe. reflexivity.
Qed.

Lemma checker_origin_witness :
  (0 <? 2) = true /\ checker 2 (mkPoint 0 0) = 1.
Proof. split; [reflexivity|]. apply (checker_origin 2). reflexivity. Defined.

(** ** The range of [stripes] and [checker] *)

Lemma stripes_checker_range_differs :
  ((0 <? 0x1p-1074) = true /\ is_finite 1 = true /\
   (stripes 0x1p-1074 (mkPoint 1 0) =? 0) = false /\
   (stripes 0x1p-1074 (mkPoint 1 0) =? 1) = false)
  /\
  ((0 <? 1) = true /\
   (checker 1 (mkPoint infinity 0) =? 0) = false /\
   (checker 1 (mkPoint infinity 0) =? 1) = false).
Proof. repeat split; vm_compute; reflexivity. Qed.

(** C6, as the code has it: for [s > 0] and a finite [p.x] whose
    quotient [p.x / s] is finite (the division does not overflow),
    [stripes(s)(p)] is 0 or 1; for [s > 0] and a point whose quotients
    [p.x / s] and [p.y / s] are both finite, [checker(s)(p)] is 0 or 1. *)
Theorem stripes_checker_range (s : Real) (p : Point) :
  (0 <? s) = true ->
  (is_finite (x p) = true -> is_finite (x p / s) = true ->
   (stripes s p =? 0) = true \/ (stripes s p =? 1) = true)
  /\
  (is_finite (x p / s) = true -> is_finite (y p / s) = true ->
   (checker s p =? 0) = true \/ (checker s p =? 1) = true).
Proof.
  intros Hs. destruct p as [px py]. cbn [x y]. split.
  - intros _ Hq.
    destruct (stripes_range_at s px py Hs Hq) as [-> | [-> | ->]];
      [left | left | right]; reflexivity.
  - intros Hqx Hqy.
    unfold checker. rewrite (positive_not_le_zero s Hs). cbn [x y].
    assert (Hqx' : is_finite (- px / s) = true)
      by now rewrite div_opp, is_finite_opp.
    assert (Hqy' : is_finite (- py / s) = true)
      by now rewrite div_opp, is_finite_opp.
    destruct (stripes_range_at s (- px) (- py) Hs Hqx') as [-> | [-> | ->]];
      destruct (stripes_range_at s (- py) (- px) Hs Hqy') as [-> | [-> | ->]];
      vm_compute; auto.
Qed.

Lemma stripes_checker_range_witness :
  (0 <? 0.5) = true /\
  ((stripes 0.5 (mkPoint 1.25 3) =? 0) = true \/
   (stripes 0.5 (mkPoint 1.25 3) =? 1) = true)
  /\
  ((checker 0.5 (mkPoint 1.25 3) =? 0) = true \/
   (checker 0.5 (mkPoint 1.25 3) =? 1) = true).
Proof.
  split; [reflexivity|].
  destruct (stripes_checker_range 0.5 (mkPoint 1.25 3)) as [Hst Hch].
  - reflexivity.
  - split; [apply Hst | apply Hch]; reflexivity.
Defined.

(** ** Scaling *)

(** C5: [scale(f, s)(p)] is [+infinity] when [s.x == 0] or [s.y == 0],
    whatever [f] and [p] are, and [f(Point(p.x/s.x, p.y/s.y))] otherwise;
    in particular [scale(slope(), Point(0,1))(Point(5,0))] is
    [+infinity]. *)
Theorem scale_semantics :
  (forall (f : Surface) (s p : Point),
      ((x s =? 0) = true \/ (y s =? 0) = true ->
       scale f s p = infinity)
      /\
      ((x s =? 0) = false -> (y s =? 0) = false ->
       scale f s p = f (mkPoint (x p / x s) (y p / y s))))
  /\ scale slope (mkPoint 0 1) (mkPoint 5 0) = infinity.
Proof.
  split; [|reflexivity]. intros f s p. unfold scale. split.
  - intros H. apply orb_true_iff in H. now rewrite H.
  - intros Hx Hy. now rewrite Hx, Hy.
Qed.

(** ** Translation *)

Lemma translate_round_trip_differs :
  (translate (translate slope (mkPoint 0x1p53 0))
             (mkPoint (- 0x1p53) (- 0)) (mkPoint 1 0)
   =? slope (mkPoint 1 0)) = false.
Proof. vm_compute; reflexivity. Qed.

(** C7, as the code has it: translating by [v] and then by
    [Point(-v.x, -v.y)] evaluates [f] at
    [((p.x + v.x) - v.x, (p.y + v.y) - v.y)], each sum and difference
    rounded to binary64; the result is [f(p)] whenever both coordinates
    come back unchanged. *)
Theorem translate_round_trip (f : Surface) (v p : Point) :
  translate (translate f v) (mkPoint (- x v) (- y v)) p
  = f (mkPoint (x p + x v - x v) (y p + y v - y v))
  /\ (x p + x v - x v = x p -> y p + y v - y v = y p ->
      translate (translate f v) (mkPoint (- x v) (- y v)) p = f p).
Proof.
  assert (E : translate (translate f v) (mkPoint (- x v) (- y v)) p
              = f (mkPoint (x p + x v - x v) (y p + y v - y v))).
  { unfold translate. cbn [x y]. now rewrite !sub_opp. }
  split; [exact E|].
  intros Hx Hy. rewrite E, Hx, Hy. now destruct p.
Qed.

Lemma translate_round_trip_witness :
  translate (translate sqr (mkPoint 2 3)) (mkPoint (- 2) (- 3)) (mkPoint 1 5)
  = sqr (mkPoint 1 5).
Proof.
  apply (translate_round_trip sqr (mkPoint 2 3) (mkPoint 1 5));
    vm_compute; reflexivity.
Defined.

(** ** Flipping *)

(** C10: [flip(flip(f))(p)] is [f(p)] for every surface [f] and point
    [p]: negating the abscissa twice gives it back, bit for bit. *)
Theorem flip_involution (f : Surface) (p : Point) :
  flip (flip f) p = f p.
Proof.
  destruct p as [px py]. unfold flip. cbn [x y].
  now rewrite opp_involutive.
Qed.

(** ** Composition *)

Lemma compose_details_pipeline {A B C} (f : A -> B) (fs : chain B C) (p : A) :
  compose_details f fs p = pipeline fs (f p).
Proof.
  revert A f p. induction fs as [B | B B' C g gs IH]; intros A f p.
  - reflexivity.
  - simpl. apply IH.
Qed.

Lemma compose_pipeline {A C} (fs : chain A C) (p : A) :
  compose fs p = pipeline fs p.
Proof.
  destruct fs as [A | A B C f rest].
  - reflexivity.
  - apply compose_details_pipeline.
Qed.

Lemma pipeline_snoc {A B C} (fs : chain A B) (g : B -> C) (p : A) :
  pipeline (chain_snoc fs g) p = g (pipeline fs p).
Proof.
  induction fs as [A | A A' B f rest IH].
  - reflexivity.
  - simpl. apply IH.
Qed.

(** C8: [compose(f1, ..., fn)(p)] is [fn(...f2(f1(p))...)], the functions
    applied from left to right, and [compose()] is the identity.  The
    pipeline reading is given three ways: as [pipeline], by peeling the
    first function, and by peeling the last one. *)
Theorem compose_semantics :
  (forall A C (fs : chain A C) (p : A), compose fs p = pipeline fs p)
  /\ (forall A (v : A), compose (@chain_nil A) v = v)
  /\ (forall A B C (f : A -> B) (fs : chain B C) (p : A),
         compose (chain_cons f fs) p = compose fs (f p))
  /\ (forall A B C (fs : chain A B) (g : B -> C) (p : A),
         compose (chain_snoc fs g) p = g (compose fs p)).
Proof.
  repeat split; intros.
  - apply compose_pipeline.
  - rewrite !compose_pipeline. reflexivity.
  - rewrite !compose_pipeline. apply pipeline_snoc.
Qed.

(** * Further properties of the header *)

(** ** Algebra of binary64 operations *)

Lemma SFadd_comm (a b : spec_float) :
  SFadd prec emax a b = SFadd prec emax b a.
Proof.
  destruct a as [sa | sa | | sa ma ea], b as [sb | sb | | sb mb eb];
    try reflexivity; try (destruct sa, sb; reflexivity).
  unfold SFadd. now rewrite Z.min_comm, Z.add_comm.
Qed.

Lemma add_comm (a b : Real) : a + b = b + a.
Proof. apply Prim2SF_inj. rewrite !add_spec. apply SFadd_comm. Qed.

Lemma SFmul_opp_opp (a b : spec_float) :
  SFmul prec emax (SFopp a) (SFopp b) = SFmul prec emax a b.
Proof.
  destruct a as [sa | sa | | sa ma ea], b as [sb | sb | | sb mb eb];
    try reflexivity; destruct sa, sb; reflexivity.
Qed.

Lemma mul_opp_opp (a b : Real) : (- a) * (- b) = a * b.
Proof.
  apply Prim2SF_inj. rewrite !mul_spec, !opp_spec. apply SFmul_opp_opp.
Qed.

Lemma SFcompare_opp (a b : spec_float) :
  SFcompare (SFopp a) (SFopp b) = SFcompare b a.
Proof.
  destruct a as [sa | sa | | sa ma ea], b as [sb | sb | | sb mb eb];
    try reflexivity; try (destruct sa, sb; reflexivity).
  unfold SFcompare, SFopp.
  pose proof (Pos.compare_cont_antisym ma mb Eq) as Hm. cbn [CompOpp] in Hm.
  rewrite (Z.compare_antisym ea eb), <- Hm.
  destruct sa, sb; cbn [negb]; trivial;
    destruct (ea ?= eb)%Z; cbn [CompOpp]; trivial.
  now rewrite CompOpp_involutive.
Qed.

Lemma leb_opp (a b : Real) : (- a <=? - b) = (b <=? a).
Proof. rewrite !leb_spec, !opp_spec. unfold SFleb. now rewrite SFcompare_opp. Qed.

Lemma leb_opp_l (a b : Real) : (- a <=? b) = (- b <=? a).
Proof. rewrite <- (opp_involutive b) at 1. apply leb_opp. Qed.

Lemma eqb_opp_zero (a : Real) : (- a =? 0) = (a =? 0).
Proof.
  rewrite !eqb_spec, opp_spec, Prim2SF_zero.
  destruct (Prim2SF a) as [[|] | [|] | | [|] ma ea]; reflexivity.
Qed.

Lemma sub_zero (a : Real) : a - 0 = a.
Proof.
  apply Prim2SF_inj. rewrite sub_spec, Prim2SF_zero.
  now destruct (Prim2SF a) as [[|] | sa | | sa ma ea].
Qed.

(** ** Multiplying and dividing by one *)

Section ExactOperations.

Local Open Scope Z_scope.

(** The rounding step shared by multiplication and division, on a
    significand whose low bits below the target exponent are zero. *)
Lemma binary_round_aux_exact (s : bool) (M m1 : positive) (e fe : Z) :
  fe = Z.max (Z.pos (digits2_pos M) + e - 53) (-1074) ->
  e <= fe <= 971 ->
  Z.pos M = Z.pos m1 * 2 ^ (fe - e) ->
  binary_round_aux prec emax s (Z.pos M) e loc_Exact = S754_finite s m1 fe.
Proof.
  intros Hfe Hrange HM.
  rewrite <- (binary_round_exact s M m1 e fe Hfe Hrange HM).
  unfold binary_round.
  assert (Hfexp : fexp prec emax (Z.pos (digits2_pos M) + e) = fe)
    by (rewrite Hfe; reflexivity).
  rewrite Hfexp. unfold shl_align.
  destruct (fe - e) eqn:Hk; trivial. lia.
Qed.

Lemma digits2_pos_shift (m M : positive) (k : Z) :
  0 <= k -> Z.pos M = Z.pos m * 2 ^ k ->
  Z.pos (digits2_pos M) = Z.pos (digits2_pos m) + k.
Proof.
  intros Hk HM. rewrite !digits2_pos_log2, HM, Z.log2_mul_pow2 by lia. lia.
Qed.

Lemma SFmul_one (a : spec_float) :
  valid_binary a = true -> SFmul prec emax a (Prim2SF 1) = a.
Proof.
  rewrite Prim2SF_one.
  destruct a as [[|] | [|] | | s m e]; try reflexivity.
  intros Hv. apply valid_finite in Hv. destruct Hv as [Hcan Hmax].
  unfold SFmul. rewrite xorb_false_r.
  assert (HM : Z.pos (m * 4503599627370496) = Z.pos m * 2 ^ 52)
    by (rewrite Pos2Z.inj_mul; reflexivity).
  apply binary_round_aux_exact.
  - rewrite (digits2_pos_shift m _ 52) by (lia || exact HM). lia.
  - lia.
  - rewrite HM. f_equal. f_equal. lia.
Qed.

Lemma SFdiv_one (a : spec_float) :
  valid_binary a = true -> SFdiv prec emax a (Prim2SF 1) = a.
Proof.
  rewrite Prim2SF_one.
  destruct a as [[|] | [|] | | s m e]; try reflexivity.
  intros Hv. apply valid_finite in Hv. destruct Hv as [Hcan Hmax].
  unfold SFdiv, SFdiv_core_binary. rewrite xorb_false_r.
  cbn [Zdigits2].
  change (Z.pos (digits2_pos 4503599627370496)) with 53.
  set (d := Z.pos (digits2_pos m)) in *.
  assert (Hfexp : forall z, fexp prec emax z = Z.max (z - 53) (-1074))
    by reflexivity.
  rewrite Hfexp.
  set (e' := Z.min (Z.max (d + e - (53 + -52) - 53) (-1074)) (e - -52)).
  assert (He' : e - 1 <= e' <= e) by (unfold e'; lia).
  assert (Hs : e - -52 - e' = 52 + (e - e')) by lia.
  assert (Hpow : 0 < 2 ^ (e - e')) by (apply Z.pow_pos_nonneg; lia).
  replace (match e - -52 - e' with
           | 0 => Z.pos m
           | Z.pos _ => Z.shiftl (Z.pos m) (e - -52 - e')
           | Z.neg _ => 0
           end) with (Z.pos m * 2 ^ (e - e') * 4503599627370496).
  2:{ destruct (e - -52 - e') eqn:Hk; try lia.
      rewrite Hs, Z.shiftl_mul_pow2, Z.pow_add_r by lia.
      change (2 ^ 52) with 4503599627370496. lia. }
  destruct (Z.div_eucl (Z.pos m * 2 ^ (e - e') * 4503599627370496)
                       4503599627370496) as [q r] eqn:Hdiv.
  assert (Hq : q = Z.pos m * 2 ^ (e - e')).
  { change q with (fst (q, r)). rewrite <- Hdiv.
    change (fst (Z.div_eucl ?a ?b)) with (a / b).
    apply Z.div_mul. lia. }
  assert (Hr : r = 0).
  { change r with (snd (q, r)). rewrite <- Hdiv.
    change (snd (Z.div_eucl ?a ?b)) with (a mod b).
    apply Z.mod_mul. lia. }
  subst r. change (new_location 4503599627370496 0) with loc_Exact.
  destruct q as [| M | M]; try lia.
  apply binary_round_aux_exact.
  - rewrite (digits2_pos_shift m M (e - e')) by lia. fold d. lia.
  - lia.
  - exact Hq.
Qed.

Lemma SFdiv_opp_r (a b : spec_float) :
  SFdiv prec emax a (SFopp b) = SFopp (SFdiv prec emax a b).
Proof.
  destruct a as [sa | sa | | sa ma ea], b as [sb | sb | | sb mb eb];
    try reflexivity; try (destruct sa, sb; reflexivity).
  unfold SFdiv, SFopp at 1.
  destruct (SFdiv_core_binary prec emax (Z.pos ma) ea (Z.pos mb) eb)
    as [[mz ez] lz].
  rewrite <- binary_round_aux_opp. now destruct sa, sb.
Qed.

End ExactOperations.

Lemma mul_one (a : Real) : a * 1 = a.
Proof.
  apply Prim2SF_inj. rewrite mul_spec. apply SFmul_one, Prim2SF_valid.
Qed.

Lemma div_one (a : Real) : a / 1 = a.
Proof.
  apply Prim2SF_inj. rewrite div_spec. apply SFdiv_one, Prim2SF_valid.
Qed.

Lemma div_minus_one (a : Real) : a / -1 = - a.
Proof.
  apply Prim2SF_inj.
  rewrite div_spec, opp_spec.
  change (Prim2SF (-1)) with (SFopp (Prim2SF 1)).
  unfold SF64div. rewrite SFdiv_opp_r. f_equal.
  apply SFdiv_one, Prim2SF_valid.
Qed.

(** ** [floor] below zero *)

Section FloorBelowZero.

Local Open Scope Z_scope.

(** Rounding [N * 2 ^ 52] at exponent [-52], for an integer [N] between
    2 and [2 ^ 52], loses nothing. *)
Lemma round_shifted_integer (s : bool) (N : Z) (S : positive) :
  2 <= N <= 2 ^ 52 -> Z.pos S = N * 2 ^ 52 ->
  exists m1 fe,
    binary_round prec emax s S (-52) = S754_finite s m1 fe
    /\ -51 <= fe <= 0 /\ Z.pos m1 = N * 2 ^ (- fe).
Proof.
  intros [HN2 HN52] HS.
  pose proof (digits2_pos_bounds S) as [Hlo Hhi].
  set (D := Z.pos (digits2_pos S)) in *.
  assert (HD1 : 53 < D).
  { apply (Z.pow_lt_mono_r_iff 2); [lia | lia |].
    apply Z.le_lt_trans with (2 := Hhi). rewrite HS.
    change (2 ^ 53) with (2 * 2 ^ 52). nia. }
  assert (HD2 : D - 1 <= 104).
  { apply (Z.pow_le_mono_r_iff 2); [lia | lia |].
    apply Z.le_trans with (1 := Hlo). rewrite HS.
    change (2 ^ 104) with (2 ^ 52 * 2 ^ 52). nia. }
  set (fe := D - 105).
  assert (Hpfe : 0 < 2 ^ (- fe)) by (apply Z.pow_pos_nonneg; lia).
  destruct (N * 2 ^ (- fe)) as [| m1 | m1] eqn:Hm1; try nia.
  exists m1, fe. split; [|split; [unfold fe; lia | now rewrite Hm1]].
  apply binary_round_exact.
  - fold D. unfold fe. lia.
  - unfold fe. lia.
  - rewrite HS, <- Hm1, <- Z.mul_assoc, <- Z.pow_add_r by lia.
    f_equal. f_equal. lia.
Qed.

(** One less than a negative integer with a fractional exponent: again
    an integer, of magnitude one more. *)
Lemma SFsub_one_negative (m : positive) (e : Z) :
  valid_binary (S754_finite true m e) = true ->
  SFintegral (S754_finite true m e) = true ->
  e < 0 ->
  exists m1 fe,
    SFsub prec emax (S754_finite true m e) (Prim2SF 1)
    = S754_finite true m1 fe
    /\ -52 <= e /\ -51 <= fe <= 0
    /\ SFintegral (S754_finite true m1 fe) = true
    /\ Z.pos m1 * 2 ^ (fe + 52) = (Z.pos m + 2 ^ (- e)) * 2 ^ (e + 52).
Proof.
  intros Hv Hi He.
  destruct (integral_negative_exponent true m e Hv Hi He)
    as (n & Hm & Hn1 & Hn & He52).
  rewrite Prim2SF_one. unfold SFsub.
  replace (Z.min e (-52)) with (-52) by lia.
  rewrite !shl_align_fst by lia. cbn [cond_Zopp].
  replace (-52 - -52) with 0 by lia.
  assert (Hn52 : n + 1 <= 2 ^ 52).
  { assert (2 ^ (53 + e) <= 2 ^ 52) by (apply Z.pow_le_mono_r; lia). lia. }
  assert (HS : - (Z.pos m * 2 ^ (e - -52)) - 4503599627370496 * 2 ^ 0
               = - ((n + 1) * 2 ^ 52)).
  { rewrite Hm, <- Z.mul_assoc, <- Z.pow_add_r by lia.
    replace (- e + (e - -52)) with 52 by lia.
    change (2 ^ 0) with 1. change (2 ^ 52) with 4503599627370496. lia. }
  rewrite HS.
  destruct ((n + 1) * 2 ^ 52) as [| S | S] eqn:HS'; try lia.
  cbn [Z.opp binary_normalize].
  destruct (round_shifted_integer true (n + 1) S) as (m1 & fe & Hr & Hfe & Hm1);
    [lia | now rewrite HS' |].
  exists m1, fe.
  assert (Hpfe : 0 < 2 ^ (- fe)) by (apply Z.pow_pos_nonneg; lia).
  split; [exact Hr|]. split; [exact He52|]. split; [exact Hfe|]. split.
  - simpl. rewrite Hm1, Z.mod_mul by lia. apply orb_true_r.
  - rewrite Hm1, Hm.
    replace (n * 2 ^ (- e) + 2 ^ (- e)) with ((n + 1) * 2 ^ (- e)) by ring.
    rewrite <- !Z.mul_assoc, <- !Z.pow_add_r by lia.
    f_equal. f_equal. lia.
Qed.

(** Among valid negative numbers, the one of larger magnitude is the
    smaller.  Magnitudes are compared at a common exponent [c]. *)
Lemma SFcompare_negative (m1 m2 : positive) (e1 e2 c : Z) :
  valid_binary (S754_finite true m1 e1) = true ->
  valid_binary (S754_finite true m2 e2) = true ->
  c <= e1 -> c <= e2 ->
  Z.pos m2 * 2 ^ (e2 - c) < Z.pos m1 * 2 ^ (e1 - c) ->
  SFcompare (S754_finite true m1 e1) (S754_finite true m2 e2) = Some Lt.
Proof.
  intros Hv1 Hv2 Hc1 Hc2 Hlt.
  apply valid_finite in Hv1. apply valid_finite in Hv2.
  destruct Hv1 as [Hcan1 _], Hv2 as [Hcan2 _].
  pose proof (digits2_pos_bounds m1) as [Hlo1 Hhi1].
  pose proof (digits2_pos_bounds m2) as [Hlo2 Hhi2].
  set (d1 := Z.pos (digits2_pos m1)) in *.
  set (d2 := Z.pos (digits2_pos m2)) in *.
  unfold SFcompare.
  destruct (Z.compare_spec e1 e2) as [Heq | Hlt12 | Hgt12]; trivial.
  - subst e2. rewrite Pos.compare_cont_spec. cbn [Pos.switch_Eq].
    assert (Hp : 0 < 2 ^ (e1 - c)) by (apply Z.pow_pos_nonneg; lia).
    assert (Hm : Z.pos m2 < Z.pos m1) by nia.
    destruct (Pos.compare_spec m1 m2) as [E | L | G]; trivial; lia.
  - exfalso.
    assert (Hd2 : d2 = 53) by lia.
    assert (Hm2 : 2 ^ 52 <= Z.pos m2)
      by (rewrite Hd2 in Hlo2; exact Hlo2).
    assert (Hm1 : Z.pos m1 < 2 ^ 53).
    { apply Z.lt_le_trans with (1 := Hhi1). apply Z.pow_le_mono_r; lia. }
    assert (Hp1 : 0 < 2 ^ (e1 - c)) by (apply Z.pow_pos_nonneg; lia).
    assert (Hp2 : 2 ^ (e2 - c) = 2 ^ (e2 - e1 - 1) * 2 * 2 ^ (e1 - c)).
    { replace (e2 - c) with (e2 - e1 - 1 + 1 + (e1 - c)) by lia.
      now rewrite !Z.pow_add_r by lia. }
    assert (Hp3 : 0 < 2 ^ (e2 - e1 - 1)) by (apply Z.pow_pos_nonneg; lia).
    rewrite Hp2 in Hlt.
    change (2 ^ 53) with (2 ^ 52 * 2) in Hm1.
    nia.
Qed.

End FloorBelowZero.

(** [floor] of a finite number is an integer, and it does not exceed
    the number. *)
Lemma floor_integral_le (q : Real) :
  is_finite q = true ->
  exact_integer (Cmath.floor q) = true /\ (Cmath.floor q <=? q) = true.
Proof.
  unfold is_finite, exact_integer. intros Hfin.
  pose proof (Prim2SF_valid q) as Hv.
  destruct (Prim2SF q) as [sq | sq | | [|] m e] eqn:Hq; try discriminate.
  - (* zero *)
    rewrite floor_trunc by now rewrite Hq.
    rewrite leb_spec, Prim2SF_trunc, Hq. now destruct sq.
  - (* below zero *)
    pose proof (SFtrunc_integral (S754_finite true m e) I) as Hti.
    pose proof (SFtrunc_valid _ Hv) as Htv.
    unfold Cmath.floor. cbv zeta.
    destruct (q <? Cmath.trunc q) eqn:Hlt;
      rewrite ltb_spec, Prim2SF_trunc, Hq in Hlt;
      rewrite leb_spec, ?sub_spec, Prim2SF_trunc, Hq;
      unfold Cmath.SFtrunc in *.
    + destruct (0 <=? e)%Z eqn:He.
      { unfold SFltb, SFcompare in Hlt.
        now rewrite Z.compare_refl, Pos.compare_cont_refl in Hlt. }
      apply Z.leb_gt in He.
      assert (Hpow : (0 < 2 ^ (- e))%Z) by (apply Z.pow_pos_nonneg; lia).
      pose proof (Z.mod_pos_bound (Z.pos m) (2 ^ (- e)) Hpow) as Hmod.
      pose proof (Z.div_mod (Z.pos m) (2 ^ (- e))) as Hdm.
      pose proof (Z.div_pos (Z.pos m) (2 ^ (- e))) as Hdp.
      destruct (Z.pos m / 2 ^ (- e) * 2 ^ (- e))%Z as [| m' | m'] eqn:Hm';
        try nia.
      * (* the integer part is -0: the floor is -1 *)
        split; [reflexivity|].
        unfold SF64sub. cbn [SFsub]. rewrite Prim2SF_one. cbn [negb].
        unfold SFleb.
        rewrite (SFcompare_negative _ m _ e (Z.min e (-52))); trivial;
          try lia.
        replace (-52 - Z.min e (-52))%Z with (- Z.min e (-52) - 52)%Z by lia.
        change 4503599627370496%Z with (2 ^ 52)%Z.
        rewrite <- Z.pow_add_r by lia.
        replace (52 + (- Z.min e (-52) - 52))%Z
          with (- e + (e - Z.min e (-52)))%Z by lia.
        rewrite Z.pow_add_r by lia.
        apply Z.mul_lt_mono_pos_r; [apply Z.pow_pos_nonneg; lia | lia].
      * destruct (SFsub_one_negative m' e Htv Hti He)
          as (m1 & fe & Hsub & He52 & Hfe & Hint & Hval).
        unfold SF64sub. rewrite Hsub. split; [exact Hint|].
        assert (Hv1 : valid_binary (S754_finite true m1 fe) = true).
        { rewrite <- Hsub.
          replace (S754_finite true m' e) with (Prim2SF (Cmath.trunc q)).
          - rewrite <- sub_spec. apply Prim2SF_valid.
          - rewrite Prim2SF_trunc, Hq. unfold Cmath.SFtrunc.
            replace (0 <=? e)%Z with false by (symmetry; apply Z.leb_gt; lia).
            now rewrite Hm'. }
        unfold SFleb.
        rewrite (SFcompare_negative m1 m fe e (-52)); trivial; try lia.
        replace (fe - -52)%Z with (fe + 52)%Z by lia.
        replace (e - -52)%Z with (e + 52)%Z by lia.
        rewrite Hval.
        apply Z.mul_lt_mono_pos_r; [apply Z.pow_pos_nonneg; lia | lia].
    + split; [exact Hti|].
      destruct (0 <=? e)%Z eqn:He.
      { unfold SFleb, SFcompare.
        now rewrite Z.compare_refl, Pos.compare_cont_refl. }
      apply Z.leb_gt in He.
      assert (Hpow : (0 < 2 ^ (- e))%Z) by (apply Z.pow_pos_nonneg; lia).
      pose proof (Z.mul_div_le (Z.pos m) (2 ^ (- e)) Hpow) as Hle.
      destruct (Z.pos m / 2 ^ (- e) * 2 ^ (- e))%Z as [| m' | m'] eqn:Hm';
        try discriminate.
      unfold SFltb, SFcompare in Hlt. unfold SFleb, SFcompare.
      rewrite Z.compare_refl, Pos.compare_cont_spec in *.
      cbn [Pos.switch_Eq] in *.
      rewrite (Pos.compare_antisym m' m) in Hlt.
      destruct (Pos.compare_spec m' m) as [E | L | G]; trivial;
        try discriminate; lia.
  - (* above zero *)
    rewrite floor_trunc by now rewrite Hq.
    rewrite leb_spec, Prim2SF_trunc, Hq. split.
    + exact (SFtrunc_integral (S754_finite false m e) I).
    + unfold Cmath.SFtrunc.
      destruct (0 <=? e)%Z eqn:He.
      { unfold SFleb, SFcompare.
        now rewrite Z.compare_refl, Pos.compare_cont_refl. }
      apply Z.leb_gt in He.
      assert (Hpow : (0 < 2 ^ (- e))%Z) by (apply Z.pow_pos_nonneg; lia).
      pose proof (Z.mul_div_le (Z.pos m) (2 ^ (- e)) Hpow) as Hle.
      destruct (Z.pos m / 2 ^ (- e) * 2 ^ (- e))%Z as [| m' | m'] eqn:Hm';
        trivial.
      unfold SFleb, SFcompare.
      rewrite Z.compare_refl, Pos.compare_cont_spec. cbn [Pos.switch_Eq].
      destruct (Pos.compare_spec m' m) as [E | L | G]; trivial. lia.
Qed.

(** ** Not-a-number *)

Lemma Prim2SF_nan : Prim2SF nan = S754_nan.
Proof. reflexivity. Qed.

Lemma div_nan_r (a : Real) : a / nan = nan.
Proof.
  apply Prim2SF_inj. rewrite div_spec, Prim2SF_nan.
  now destruct (Prim2SF a).
Qed.

Lemma div_nan_l (a : Real) : nan / a = nan.
Proof. apply Prim2SF_inj. now rewrite div_spec, Prim2SF_nan. Qed.

Lemma add_nan_r (a : Real) : a + nan = nan.
Proof.
  apply Prim2SF_inj. rewrite add_spec, Prim2SF_nan.
  now destruct (Prim2SF a).
Qed.

Lemma add_nan_l (a : Real) : nan + a = nan.
Proof. rewrite add_comm. apply add_nan_r. Qed.

Lemma leb_nan_l (a : Real) : (nan <=? a) = false.
Proof. now rewrite leb_spec, Prim2SF_nan. Qed.

Lemma leb_nan_r (a : Real) : (a <=? nan) = false.
Proof.
  rewrite leb_spec, Prim2SF_nan. unfold SFleb, SFcompare.
  now destruct (Prim2SF a).
Qed.

(** A number that is not NaN equals itself and is below or equal to
    itself. *)
Lemma eqb_refl_leb (a : Real) : (a =? a) = true -> (a <=? a) = true.
Proof.
  rewrite eqb_spec, leb_spec. unfold SFeqb, SFleb.
  now destruct (SFcompare (Prim2SF a) (Prim2SF a)) as [[| |]|].
Qed.

Lemma positive_eqb_refl (a : Real) : (0 <? a) = true -> (a =? a) = true.
Proof.
  intros Ha. rewrite eqb_spec.
  destruct (positive_cases a Ha) as [(m & e & ->) | ->]; [|reflexivity].
  unfold SFeqb, SFcompare.
  now rewrite Z.compare_refl, Pos.compare_cont_refl.
Qed.

Lemma positive_opp_leb (a : Real) :
  (0 <? a) = true ->
  (- a <=? a) = true /\ (- a <=? 0) = true /\ (0 <=? a) = true
  /\ (- a <=? - a) = true.
Proof.
  intros Ha. rewrite !leb_spec, opp_spec, Prim2SF_zero.
  destruct (positive_cases a Ha) as [(m & e & ->) | ->];
    repeat split; try reflexivity.
  unfold SFleb, SFcompare. cbn [SFopp negb].
  now rewrite Z.compare_refl, Pos.compare_cont_refl.
Qed.

(** Adding [+0] changes nothing but the sign of [-0]. *)
Lemma add_zero_eqb (a : Real) : (a =? a) = true -> (a + 0 =? a) = true.
Proof.
  rewrite !eqb_spec, add_spec, Prim2SF_zero.
  destruct (Prim2SF a) as [[|] | [|] | | sa ma ea]; trivial.
Qed.

(** ** Identity transforms *)

(** X1: [invert] is an involution, and flipping and inverting twice is
    a half-turn: [flip(invert(flip(invert(f))))] evaluates [f] at
    [(-p.x, -p.y)], as [scale(f, Point(-1, -1))] does. *)
Theorem invert_involution_half_turn (f : Surface) (p : Point) :
  invert (invert f) p = f p
  /\ flip (invert (flip (invert f))) p = f (mkPoint (- x p) (- y p))
  /\ scale f (mkPoint (-1) (-1)) p = f (mkPoint (- x p) (- y p)).
Proof.
  destruct p as [px py]. split; [reflexivity|]. split; [reflexivity|].
  unfold scale. cbn [x y].
  change ((-1 =? 0) || (-1 =? 0)) with false. cbv iota.
  now rewrite !div_minus_one.
Qed.

(** X2: translating by [Point(0, 0)] changes no surface: [x - 0] is [x]
    for every binary64 number, the zeros, the infinities and NaN
    included. *)
Theorem translate_by_zero (f : Surface) (p : Point) :
  translate f (mkPoint 0 0) p = f p.
Proof.
  destruct p as [px py]. unfold translate. cbn [x y].
  now rewrite !sub_zero.
Qed.

(** X3: scaling by [Point(1, 1)] changes no surface: division by one is
    exact. *)
Theorem scale_by_one (f : Surface) (p : Point) :
  scale f (mkPoint 1 1) p = f p.
Proof.
  destruct p as [px py]. unfold scale. cbn [x y].
  change ((1 =? 0) || (1 =? 0)) with false. cbv iota.
  now rewrite !div_one.
Qed.

(** X4: scaling by [Point(-1, 1)] is [flip]: division by minus one is
    negation. *)
Theorem scale_by_mirror (f : Surface) (p : Point) :
  scale f (mkPoint (-1) 1) p = flip f p.
Proof.
  destruct p as [px py]. unfold scale, flip. cbn [x y].
  change ((-1 =? 0) || (1 =? 0)) with false. cbv iota.
  now rewrite div_minus_one, div_one.
Qed.

(** X5: [mul(f, 1)] is [f] at every point, and [add(f, 0)] compares
    equal to [f] wherever [f] is not NaN (only the sign of a zero result
    can change). *)
Theorem mul_one_add_zero (f : Surface) (p : Point) :
  mul f 1 p = f p
  /\ ((f p =? f p) = true -> (add f 0 p =? f p) = true).
Proof.
  split.
  - unfold mul. apply mul_one.
  - unfold add. apply add_zero_eqb.
Qed.

(** ** Symmetries of the shapes *)

(** X6: [sqr] never returns a negative number, and it takes the same
    value at [(x, y)] and [(-x, y)]. *)
Theorem sqr_nonnegative_even (p : Point) :
  (sqr p <? 0) = false /\ flip sqr p = sqr p.
Proof.
  split.
  - unfold sqr. rewrite ltb_spec, mul_spec, Prim2SF_zero.
    destruct (Prim2SF (x p)) as [[|] | [|] | | s m e]; trivial.
    unfold SF64mul, SFmul. rewrite xorb_nilpotent.
    pose proof (binary_round_aux_nonneg (Z.pos (m * m)) (e + e) loc_Exact)
      as Hs.
    destruct (binary_round_aux prec emax false (Z.pos (m * m)) (e + e)
                loc_Exact) as [s' | s' | | s' m' e'];
      trivial; now rewrite Hs.
  - unfold flip, sqr. cbn [x y]. apply mul_opp_opp.
Qed.

Lemma rectangle_test_flip (a px : Real) :
  (- a <=? - px) && (- px <=? a) = (- a <=? px) && (px <=? a).
Proof. rewrite leb_opp, (leb_opp_l px a). apply andb_comm. Qed.

(** X7: a rectangle is symmetric about the vertical axis, and swapping
    the coordinates swaps its half-extents:
    [flip(rectangle(a,b))] is [rectangle(a,b)] and
    [invert(rectangle(a,b))] is [rectangle(b,a)]. *)
Theorem rectangle_symmetries (a b : Real) (p : Point) :
  flip (rectangle a b) p = rectangle a b p
  /\ invert (rectangle a b) p = rectangle b a p.
Proof.
  destruct p as [px py]. unfold flip, invert, rectangle. cbn [x y]. split.
  - now rewrite rectangle_test_flip.
  - rewrite (orb_comm (a <=? 0)).
    destruct ((b <=? 0) || (a <=? 0)); trivial.
    now destruct (- a <=? py), (py <=? a), (- b <=? px), (px <=? b).
Qed.

(** X8: for positive half-extents, infinite ones included, the centre
    and the four corners belong to the rectangle. *)
Theorem rectangle_contains_corners (a b : Real) :
  (0 <? a) = true -> (0 <? b) = true ->
  rectangle a b (mkPoint 0 0) = 1
  /\ rectangle a b (mkPoint a b) = 1
  /\ rectangle a b (mkPoint (- a) b) = 1
  /\ rectangle a b (mkPoint a (- b)) = 1
  /\ rectangle a b (mkPoint (- a) (- b)) = 1.
Proof.
  intros Ha Hb. unfold rectangle. cbn [x y].
  rewrite (positive_not_le_zero a Ha), (positive_not_le_zero b Hb).
  destruct (positive_opp_leb a Ha) as (Ha1 & Ha2 & Ha3 & Ha4).
  destruct (positive_opp_leb b Hb) as (Hb1 & Hb2 & Hb3 & Hb4).
  pose proof (eqb_refl_leb a (positive_eqb_refl a Ha)) as Ha5.
  pose proof (eqb_refl_leb b (positive_eqb_refl b Hb)) as Hb5.
  now rewrite Ha1, Ha2, Ha3, Ha4, Ha5, Hb1, Hb2, Hb3, Hb4, Hb5.
Qed.

Lemma rectangle_contains_corners_witness :
  (0 <? 2) = true /\ (0 <? infinity) = true /\
  rectangle 2 infinity (mkPoint (- 2) infinity) = 1.
Proof.
  split; [reflexivity|]. split; [reflexivity|].
  apply (rectangle_contains_corners 2 infinity); reflexivity.
Defined.

(** X9: an ellipse is symmetric about the vertical axis, and swapping
    the coordinates swaps its semi-axes: [flip(ellipse(a,b))] is
    [ellipse(a,b)] and [invert(ellipse(a,b))] is [ellipse(b,a)]. *)
Theorem ellipse_symmetries (a b : Real) (p : Point) :
  flip (ellipse a b) p = ellipse a b p
  /\ invert (ellipse a b) p = ellipse b a p.
Proof.
  destruct p as [px py]. unfold flip, invert, ellipse. cbn [x y]. split.
  - now rewrite mul_opp_opp.
  - rewrite (orb_comm (a <=? 0)).
    now rewrite (add_comm (py * py / (a * a))).
Qed.

(** X10: [ellipse] and [rectangle] return 0 or 1 on every input, NaN
    and infinities included; and a NaN extent makes them 0 everywhere. *)
Theorem shapes_are_indicators (a b : Real) (p : Point) :
  (ellipse a b p = 0 \/ ellipse a b p = 1)
  /\ (rectangle a b p = 0 \/ rectangle a b p = 1)
  /\ ellipse nan b p = 0 /\ ellipse a nan p = 0
  /\ rectangle nan b p = 0 /\ rectangle a nan p = 0.
Proof.
  unfold ellipse, rectangle. repeat split.
  - destruct ((a <=? 0) || (b <=? 0)); auto.
    destruct (_ <=? 1); auto.
  - destruct ((a <=? 0) || (b <=? 0)); auto.
    destruct (_ && _); auto.
  - change (nan * nan) with nan.
    rewrite div_nan_r, add_nan_l, !leb_nan_l.
    now destruct (b <=? 0).
  - change (nan * nan) with nan.
    rewrite div_nan_r, add_nan_r, !leb_nan_l.
    now destruct (a <=? 0).
  - change (- nan) with nan. rewrite !leb_nan_l.
    now destruct (b <=? 0).
  - change (- nan) with nan. rewrite !leb_nan_l, leb_nan_r, !andb_false_r.
    now destruct (a <=? 0).
Qed.

(** X11: the centre belongs to an ellipse with positive semi-axes as
    long as their squares do not underflow to zero; when one does, the
    quotient [0/0] is NaN and the centre is left out, as for
    [ellipse(2^-600, 1)]. *)
Theorem ellipse_centre (a b : Real) :
  ((0 <? a) = true -> (0 <? b) = true ->
   (0 <? a * a) = true -> (0 <? b * b) = true ->
   ellipse a b (mkPoint 0 0) = 1)
  /\ ellipse 0x1p-600 1 (mkPoint 0 0) = 0.
Proof.
  split; [|reflexivity].
  intros Ha Hb Haa Hbb. unfold ellipse. cbn [x y].
  rewrite (positive_not_le_zero a Ha), (positive_not_le_zero b Hb).
  change (0 * 0) with 0.
  now rewrite (zero_div_positive _ Haa), (zero_div_positive _ Hbb).
Qed.

Lemma ellipse_centre_witness :
  ellipse 2 0.5 (mkPoint 0 0) = 1.
Proof.
  destruct (ellipse_centre 2 0.5) as [H _]. apply H; reflexivity.
Defined.

(** X12: [rings] is symmetric about the vertical axis and about the
    diagonal: [flip(rings(s))] and [invert(rings(s))] are [rings(s)]. *)
Theorem rings_symmetries (s : Real) (p : Point) :
  flip (rings s) p = rings s p /\ invert (rings s) p = rings s p.
Proof.
  destruct p as [px py]. unfold flip, invert, rings. cbn [x y]. split.
  - now rewrite eqb_opp_zero, mul_opp_opp.
  - now rewrite (andb_comm (py =? 0)), (add_comm (py * py)).
Qed.

(** X13: for [s > 0], [rings(s)] is 1 at the origin, and it is 0 or 1
    wherever the radius [sqrt(x^2 + y^2)] divided by [s] is finite. *)
Theorem rings_range (s : Real) (p : Point) :
  (0 <? s) = true ->
  rings s (mkPoint 0 0) = 1
  /\ (is_finite (sqrt (x p * x p + y p * y p) / s) = true ->
      (rings s p =? 0) = true \/ (rings s p =? 1) = true).
Proof.
  intros Hs. unfold rings. rewrite (positive_not_le_zero s Hs). split.
  - reflexivity.
  - intros Hr. destruct ((x p =? 0) && (y p =? 0)); [now right|].
    destruct (stripes_range_at s _ 0 Hs Hr) as [-> | [-> | ->]];
      [left | left | right]; reflexivity.
Qed.

Lemma rings_range_witness :
  (0 <? 2) = true /\
  ((rings 2 (mkPoint 3 4) =? 0) = true \/ (rings 2 (mkPoint 3 4) =? 1) = true).
Proof.
  split; [reflexivity|].
  destruct (rings_range 2 (mkPoint 3 4)) as [_ H]; [reflexivity|].
  apply H. reflexivity.
Defined.

(** X14: the checkerboard is symmetric about the diagonal:
    [invert(checker(s))] is [checker(s)]. *)
Theorem checker_diagonal_symmetry (s : Real) (p : Point) :
  invert (checker s) p = checker s p.
Proof.
  destruct p as [px py]. unfold invert, checker. cbn [x y].
  now rewrite (add_comm (stripes s (mkPoint (- py) (- px)))).
Qed.

(** ** NaN parameters and coordinates *)

Lemma stripes_nan_abscissa (s py : Real) :
  (s <=? 0) = false -> stripes s (mkPoint nan py) = nan.
Proof.
  intros Hs. unfold stripes. rewrite Hs. cbn [x].
  change (0 <? nan) with false. cbv iota.
  change (- nan) with nan. now rewrite div_nan_l.
Qed.

(** X15: the guard [s <= 0] does not catch a NaN period: [steps(NaN)],
    [stripes(NaN)] and [checker(NaN)] are NaN at every point, and
    [rings(NaN)] is NaN everywhere but at the origin. *)
Theorem nan_period (p : Point) :
  steps nan p = nan /\ stripes nan p = nan /\ checker nan p = nan
  /\ rings nan p = if (x p =? 0) && (y p =? 0) then 1 else nan.
Proof.
  assert (Hstripes : forall q, stripes nan q = nan).
  { intros q. unfold stripes. change (nan <=? 0) with false. cbv iota.
    rewrite !div_nan_r. now destruct (0 <? x q). }
  repeat split.
  - unfold steps. change (nan <=? 0) with false. cbv iota.
    now rewrite div_nan_r.
  - apply Hstripes.
  - unfold checker. change (nan <=? 0) with false. cbv iota.
    now rewrite !Hstripes.
  - unfold rings. change (nan <=? 0) with false. cbv iota.
    now rewrite Hstripes.
Qed.

(** X16: for [s > 0], a NaN abscissa gives NaN from [steps] and
    [stripes], and a NaN in either coordinate gives NaN from
    [checker]: NaN is never turned into a band. *)
Theorem nan_coordinate (s c : Real) :
  (0 <? s) = true ->
  steps s (mkPoint nan c) = nan /\ stripes s (mkPoint nan c) = nan
  /\ checker s (mkPoint nan c) = nan /\ checker s (mkPoint c nan) = nan.
Proof.
  intros Hs. pose proof (positive_not_le_zero s Hs) as Hle.
  repeat split.
  - unfold steps. rewrite Hle. cbn [x]. now rewrite div_nan_l.
  - now apply stripes_nan_abscissa.
  - unfold checker. rewrite Hle. cbn [x y]. change (- nan) with nan.
    rewrite (stripes_nan_abscissa s _ Hle), add_nan_l. reflexivity.
  - unfold checker. rewrite Hle. cbn [x y]. change (- nan) with nan.
    rewrite (stripes_nan_abscissa s _ Hle), add_nan_r. reflexivity.
Qed.

Lemma nan_coordinate_witness :
  (0 <? 1) = true /\ checker 1 (mkPoint 3 nan) = nan.
Proof.
  split; [reflexivity|]. apply (nan_coordinate 1 3). reflexivity.
Defined.

(** ** Steps *)

(** X17: for [s > 0] and a finite quotient [p.x / s], [steps(s)(p)] is
    an integer and does not exceed the quotient. *)
Theorem steps_integer_below (s : Real) (p : Point) :
  (0 <? s) = true -> is_finite (x p / s) = true ->
  exact_integer (steps s p) = true /\ (steps s p <=? x p / s) = true.
Proof.
  intros Hs Hq. unfold steps. rewrite (positive_not_le_zero s Hs).
  now apply floor_integral_le.
Qed.

Lemma steps_integer_below_witness :
  (0 <? 0.5) = true /\
  exact_integer (steps 0.5 (mkPoint (-1.75) 0)) = true /\
  (steps 0.5 (mkPoint (-1.75) 0) <=? -1.75 / 0.5) = true.
Proof.
  split; [reflexivity|].
  apply (steps_integer_below 0.5 (mkPoint (-1.75) 0)); reflexivity.
Defined.

(** ** Stripes across the origin *)

Lemma positive_opp_not_positive (a : Real) :
  (0 <? a) = true -> (0 <? - a) = false.
Proof.
  intros Ha. rewrite ltb_spec, opp_spec, Prim2SF_zero.
  destruct (positive_cases a Ha) as [(m & e & ->) | ->]; reflexivity.
Qed.

(** X18: on a band boundary the two sides of the origin agree: for
    [s > 0] and [x > 0] with [x / s] an exact integer, [stripes(s)] takes
    the same value at [-x] and at [x]. *)
Theorem stripes_mirror_on_boundary (s px py : Real) :
  (0 <? s) = true -> (0 <? px) = true ->
  exact_integer (px / s) = true ->
  stripes s (mkPoint (- px) py) = stripes s (mkPoint px py).
Proof.
  intros Hs Hx Hint. unfold stripes.
  rewrite (positive_not_le_zero s Hs). cbn [x].
  rewrite Hx, (positive_opp_not_positive px Hx), opp_involutive, trunc_eqb.
  rewrite Hint. unfold exact_integer in Hint.
  now destruct (Prim2SF (px / s)).
Qed.

Lemma stripes_mirror_on_boundary_witness :
  stripes 0.5 (mkPoint (- 1.5) 0) = stripes 0.5 (mkPoint 1.5 0).
Proof. apply (stripes_mirror_on_boundary 0.5 1.5 0); reflexivity. Defined.

(** ** Parity of the banding index *)

Section Parity.

Local Open Scope Z_scope.

(** The remainder modulo 2 of the integer [V], held as the significand
    [m] at exponent [e]. *)
Lemma SFfmod_two_parity (m : positive) (e V : Z) :
  -1074 <= e ->
  Z.pos m * 2 ^ (e - Z.min e (-51)) = V * 2 ^ (- Z.min e (-51)) ->
  Cmath.SFfmod (S754_finite false m e) (Prim2SF 2)
  = if Z.even V then S754_zero false else Prim2SF 1.
Proof.
  intros Hmin HV. rewrite Prim2SF_two, Prim2SF_one. unfold Cmath.SFfmod.
  set (c := Z.min e (-51)) in *.
  assert (Hc : -1074 <= c <= -51) by lia.
  assert (Hpc : 0 < 2 ^ (- c)) by (apply Z.pow_pos_nonneg; lia).
  rewrite HV.
  replace (4503599627370496 * 2 ^ (-51 - c)) with (2 * 2 ^ (- c)).
  2:{ change 4503599627370496 with (2 ^ 52).
      rewrite <- Z.pow_add_r, <- Z.pow_succ_r by lia. f_equal. lia. }
  rewrite Z.mul_mod_distr_r by lia. cbn [cond_Zopp].
  rewrite Zeven_mod.
  assert (HV2 : V mod 2 = 0 \/ V mod 2 = 1)
    by (pose proof (Z.mod_pos_bound V 2); lia).
  destruct HV2 as [-> | ->]; [reflexivity|].
  rewrite Z.mul_1_l. cbn [Z.eqb].
  destruct (Z.eq_dec c (-51)) as [-> | Hc51]; [reflexivity|].
  destruct (2 ^ (- c)) as [| M | M] eqn:HM; try lia.
  cbn [binary_normalize].
  apply binary_round_exact.
  - rewrite (digits2_pos_unique M (- c + 1)); [lia|].
    rewrite <- HM. replace (- c + 1 - 1) with (- c) by lia.
    rewrite Z.pow_add_r by lia. lia.
  - lia.
  - rewrite <- HM. change 4503599627370496 with (2 ^ 52).
    rewrite <- Z.pow_add_r by lia. f_equal. lia.
Qed.

(** A natural number with a fractional exponent and its successor have
    remainders 0 and 1 modulo 2, in one order or the other. *)
Lemma SFfmod_two_successor (m : positive) (e : Z) :
  valid_binary (S754_finite false m e) = true ->
  SFintegral (S754_finite false m e) = true ->
  e < 0 ->
  let r := Cmath.SFfmod (S754_finite false m e) (Prim2SF 2) in
  let r' := Cmath.SFfmod
              (SFadd prec emax (S754_finite false m e) (Prim2SF 1))
              (Prim2SF 2) in
  (r = S754_zero false /\ r' = Prim2SF 1) \/
  (r = Prim2SF 1 /\ r' = S754_zero false).
Proof.
  intros Hv Hi He.
  destruct (integral_negative_exponent false m e Hv Hi He)
    as (n & Hm & Hn1 & Hn & He52).
  assert (Hr : Cmath.SFfmod (S754_finite false m e) (Prim2SF 2)
               = if Z.even n then S754_zero false else Prim2SF 1).
  { apply SFfmod_two_parity; [lia|].
    rewrite Hm, <- Z.mul_assoc, <- Z.pow_add_r by lia.
    f_equal. f_equal. lia. }
  assert (Hr' : Cmath.SFfmod
                  (SFadd prec emax (S754_finite false m e) (Prim2SF 1))
                  (Prim2SF 2)
                = if Z.even (n + 1) then S754_zero false else Prim2SF 1).
  { rewrite Prim2SF_one. unfold SFadd.
    replace (Z.min e (-52)) with (-52) by lia.
    rewrite !shl_align_fst by lia. cbn [cond_Zopp].
    replace (-52 - -52) with 0 by lia.
    assert (Hn52 : n + 1 <= 2 ^ 52).
    { assert (2 ^ (53 + e) <= 2 ^ 52) by (apply Z.pow_le_mono_r; lia).
      lia. }
    assert (HS : Z.pos m * 2 ^ (e - -52) + 4503599627370496 * 2 ^ 0
                 = (n + 1) * 2 ^ 52).
    { rewrite Hm, <- Z.mul_assoc, <- Z.pow_add_r by lia.
      replace (- e + (e - -52)) with 52 by lia.
      change (2 ^ 0) with 1. change (2 ^ 52) with 4503599627370496. lia. }
    rewrite HS.
    destruct ((n + 1) * 2 ^ 52) as [| S | S] eqn:HS'; try lia.
    cbn [binary_normalize].
    destruct (round_shifted_integer false (n + 1) S)
      as (m1 & fe & -> & Hfe & Hm1); [lia | now rewrite HS' |].
    apply SFfmod_two_parity; [lia|].
    replace (Z.min fe (-51)) with (-51) by lia.
    rewrite Hm1, <- Z.mul_assoc, <- Z.pow_add_r by lia.
    f_equal. f_equal. lia. }
  cbv zeta. rewrite Hr, Hr', Z.even_add.
  change (Z.even 1) with false.
  destruct (Z.even n); [left | right]; split; reflexivity.
Qed.

End Parity.

(** X19: off the band boundaries the two sides of the origin are
    complementary: for [s > 0] and [x > 0] whose quotient [x / s] is
    finite and not an integer, [stripes(s)] is 0 at [-x] and 1 at [x], or
    1 at [-x] and 0 at [x]. *)
Theorem stripes_mirror_off_boundary (s px py : Real) :
  (0 <? s) = true -> (0 <? px) = true ->
  is_finite (px / s) = true ->
  exact_integer (px / s) = false ->
  (stripes s (mkPoint (- px) py) = 0 /\ stripes s (mkPoint px py) = 1) \/
  (stripes s (mkPoint (- px) py) = 1 /\ stripes s (mkPoint px py) = 0).
Proof.
  intros Hs Hx Hfin Hint.
  pose proof (finite_quotient_dividend px s Hs Hfin) as Hpx.
  pose proof (quotient_nonneg_finite px s (positive_nonneg px Hpx Hx) Hs Hfin)
    as Hnn.
  unfold stripes. rewrite (positive_not_le_zero s Hs). cbn [x].
  rewrite Hx, (positive_opp_not_positive px Hx), opp_involutive, trunc_eqb.
  rewrite (floor_trunc_nonneg _ Hnn).
  unfold exact_integer in *.
  pose proof (Prim2SF_valid (px / s)) as Hv.
  pose proof (Prim2SF_trunc (px / s)) as Ht.
  destruct (Prim2SF (px / s)) as [sq | sq | | [|] m e] eqn:Hq;
    try discriminate.
  rewrite Hint. unfold Cmath.fmod. rewrite add_spec, Ht. unfold SF64add.
  pose proof (SFtrunc_valid _ Hv) as Htv.
  pose proof (SFtrunc_integral (S754_finite false m e) I) as Hti.
  cbn [SFintegral] in Hint. unfold Cmath.SFtrunc in *.
  destruct (0 <=? e)%Z eqn:He; [discriminate|].
  apply Z.leb_gt in He.
  destruct (Z.pos m / 2 ^ (- e) * 2 ^ (- e))%Z as [| m' | m'];
    try (left; split; reflexivity).
  destruct (SFfmod_two_successor m' e Htv Hti He) as [[-> ->] | [-> ->]].
  - left. split; [reflexivity | apply SF2Prim_Prim2SF].
  - right. split; [apply SF2Prim_Prim2SF | reflexivity].
Qed.

Lemma stripes_mirror_off_boundary_witness :
  (stripes 0.5 (mkPoint (- 1.25) 0) = 0 /\ stripes 0.5 (mkPoint 1.25 0) = 1)
  \/
  (stripes 0.5 (mkPoint (- 1.25) 0) = 1 /\ stripes 0.5 (mkPoint 1.25 0) = 0).
Proof. apply (stripes_mirror_off_boundary 0.5 1.25 0); reflexivity. Defined.

(** ** Rotation by zero degrees *)

Lemma finite_nonzero_cases (a : Real) :
  is_finite a = true -> (a =? 0) = false ->
  exists s m e, Prim2SF a = S754_finite s m e.
Proof.
  unfold is_finite. rewrite eqb_spec, Prim2SF_zero.
  destruct (Prim2SF a) as [s | s | | s m e]; try discriminate.
  intros _ _. now exists s, m, e.
Qed.

(** A finite nonzero number absorbs the signed zero that a finite
    number times zero is. *)
Lemma add_mul_zero (a b : Real) :
  is_finite a = true -> (a =? 0) = false -> is_finite b = true ->
  a + b * 0 = a /\ a - b * 0 = a.
Proof.
  intros Ha Ha0 Hb.
  destruct (finite_nonzero_cases a Ha Ha0) as (s & m & e & Hsa).
  assert (Hz : exists z, Prim2SF (b * 0) = S754_zero z).
  { rewrite mul_spec, Prim2SF_zero. unfold is_finite in Hb.
    destruct (Prim2SF b) as [sb | sb | | sb mb eb]; try discriminate;
      eexists; reflexivity. }
  destruct Hz as [z Hz].
  split; apply Prim2SF_inj; rewrite ?add_spec, ?sub_spec, Hsa, Hz;
    reflexivity.
Qed.

(** X22: whatever [std::sin] and [std::cos] are, as long as [cos(0)] is 1
    and [sin(0)] is 0, rotating by 0 degrees changes no surface at a
    point whose coordinates are finite and nonzero; the coordinates come
    back bit for bit. *)
Theorem rotate_by_zero (sin cos : Real -> Real) (f : Surface) (p : Point) :
  cos 0 = 1 -> sin 0 = 0 ->
  is_finite (x p) = true -> is_finite (y p) = true ->
  (x p =? 0) = false -> (y p =? 0) = false ->
  rotate sin cos f 0 p = f p.
Proof.
  intros Hcos Hsin Hx Hy Hx0 Hy0. destruct p as [px py]. cbn [x y] in *.
  unfold rotate. cbv zeta. cbn [x y].
  change (0 / 180 * pi) with 0. rewrite Hcos, Hsin, !mul_one.
  destruct (add_mul_zero px py Hx Hx0 Hy) as [-> _].
  destruct (add_mul_zero py px Hy Hy0 Hx) as [_ ->].
  reflexivity.
Qed.

Lemma rotate_by_zero_witness :
  rotate (fun a => a) (fun a => 1 - a) slope 0 (mkPoint 3 (-4))
  = slope (mkPoint 3 (-4)).
Proof.
  apply (rotate_by_zero (fun a => a) (fun a => 1 - a) slope (mkPoint 3 (-4)));
    reflexivity.
Defined.

(** ** Composition and evaluation *)

Lemma pipeline_app {A B C} (fs : chain A B) (gs : chain B C) (p : A) :
  pipeline (chain_app fs gs) p = pipeline gs (pipeline fs p).
Proof.
  induction fs as [A | A A' B f rest IH].
  - reflexivity.
  - simpl. apply IH.
Qed.

(** X20: composing the pack [fs..., gs...] is composing [fs...] and then
    [gs...]; in particular a composition may itself be the first element
    of a pack: [compose(compose(fs...), gs...)] is
    [compose(fs..., gs...)]. *)
Theorem compose_concatenation {A B C} (fs : chain A B) (gs : chain B C)
    (p : A) :
  compose (chain_app fs gs) p = compose gs (compose fs p)
  /\ compose (chain_cons (compose fs) gs) p = compose (chain_app fs gs) p.
Proof.
  rewrite !compose_pipeline, pipeline_app. split; trivial.
  cbn [pipeline]. now rewrite compose_pipeline.
Qed.

(** X21: [flip], [invert] and [translate] of an [evaluate] are the
    [evaluate] of the transformed surfaces; [scale] is too when both
    scale components are nonzero, while with a zero component the scaled
    [evaluate] is [+infinity] and the [evaluate] of the scaled surfaces
    feeds [+infinity] to [h] in every position. *)
Theorem evaluate_transforms (h : list Real -> Real) (fs : list Surface)
    (v p : Point) :
  flip (evaluate h fs) p = evaluate h (map flip fs) p
  /\ invert (evaluate h fs) p = evaluate h (map invert fs) p
  /\ translate (evaluate h fs) v p
     = evaluate h (map (fun f => translate f v) fs) p
  /\ ((x v =? 0) || (y v =? 0) = false ->
      scale (evaluate h fs) v p = evaluate h (map (fun f => scale f v) fs) p)
  /\ ((x v =? 0) || (y v =? 0) = true ->
      scale (evaluate h fs) v p = INFINITY /\
      evaluate h (map (fun f => scale f v) fs) p
      = h (map (fun _ => INFINITY) fs)).
Proof.
  unfold evaluate. split; [|split; [|split; [|split]]].
  - unfold flip. now rewrite map_map.
  - unfold invert. now rewrite map_map.
  - unfold translate. now rewrite map_map.
  - intros Hz. unfold scale. now rewrite map_map, Hz.
  - intros Hz. unfold scale. now rewrite map_map, Hz.
Qed.
